(** * picolibc tinystdio: the generic string-to-integer engine [strtoi.h]

    A shallow embedding of [newlib/libc/tinystdio/strtoi.h] and the
    properties its specification states about it.

    The header is a template: the including file chooses the result type
    ([strtoi_type], [strtoi_utype], [strtoi_min], [strtoi_max]) and whether the
    type is signed ([strtoi_signed]).  One instantiation is described here by
    a record [kind].

    Conventions of the embedding:
    - an [unsigned char] is a [Z] in [0, 256); a value of the result type is
      a [Z] in the range of that type, and every assignment to it wraps
      around at [bits] bits (two's complement for the signed kinds, as the
      compiled code behaves);
    - the object [nptr] points to is the list of its bytes, terminating NUL
      included; a pointer into it is the list of the bytes not yet read
      together with its offset from the start; a read outside the object
      yields [None];
    - [flags] is the bit field the source keeps in an [unsigned char]. *)

From Stdlib Require Import ZArith List Bool String Ascii Lia.
Import ListNotations.
Open Scope Z_scope.

(** ** Instantiation of the template *)

Record kind : Type := MkKind {
  bits : Z;                 (* width of [strtoi_type] in bits *)
  is_signed : bool;         (* [strtoi_signed] is defined *)
  have_builtins : bool;     (* [_HAVE_BUILTIN_MUL_OVERFLOW] and [_ADD_OVERFLOW] *)
  int_bits : Z              (* width of [int] on the target *)
}.

(** Modelled from the spec: the macros [strtoi_max] and [strtoi_min] are
    defined by the file that includes the header; they are the largest and
    the smallest value of the result type. *)
Definition strtoi_max (k : kind) : Z :=
  if is_signed k then 2 ^ (bits k - 1) - 1 else 2 ^ bits k - 1.

Definition strtoi_min (k : kind) : Z :=
  if is_signed k then - 2 ^ (bits k - 1) else 0.

(** [#define USE_OVERFLOW]: both builtins and not [strtoi_signed]. *)
Definition USE_OVERFLOW (k : kind) : bool :=
  have_builtins k && negb (is_signed k).

(** Conversion to [strtoi_utype] and to [strtoi_type]. *)
Definition to_utype (k : kind) (x : Z) : Z := x mod 2 ^ bits k.

Definition to_type (k : kind) (x : Z) : Z :=
  if is_signed k
  then (x + 2 ^ (bits k - 1)) mod 2 ^ bits k - 2 ^ (bits k - 1)
  else x mod 2 ^ bits k.

Definition to_uchar (x : Z) : Z := x mod 256.

Definition to_uint (k : kind) (x : Z) : Z := x mod 2 ^ int_bits k.

(** ** Character classification *)

Definition CASE_CONVERT : Z := 97 - 65.           (* 'a' - 'A' *)
Definition TOLOW (c : Z) : Z := Z.lor c CASE_CONVERT.

Definition ISSPACE (c : Z) : bool :=
  ((9 <=? c) && (c <=? 13)) || (c =? 32).

(** Lines 129-131: the value the loop compares with [base]. *)
Definition digit_of (i : Z) : Z :=
  let i := if 97 <=? TOLOW i
           then to_uchar (TOLOW i + ((48 - 97) + 10))
           else i in
  to_uchar (i - 48).

(** ** Flags, errno, result *)

Definition FLAG_NEG : Z := 1.
Definition FLAG_ANY : Z := 2.
Definition FLAG_OFLOW : Z := 4.

Definition has_flag (flags f : Z) : bool := negb (Z.land flags f =? 0).

Inductive errno_t : Type := ENONE | EINVAL | ERANGE.

(** What a call leaves behind: the returned value, the offset from the
    original [nptr] that is stored through [endptr], the value written to
    [errno] ([ENONE] when it is left alone) and the final [flags]. *)
Record result : Type := MkResult {
  value : Z;
  consumed_count : Z;
  errno : errno_t;
  final_flags : Z
}.

Inductive status_t : Type :=
  Ok | InvalidConfiguration | NoDigitsConsumed | OutOfRange.

Definition status (r : result) : status_t :=
  match errno r with
  | EINVAL => InvalidConfiguration
  | ERANGE => OutOfRange
  | ENONE => if has_flag (final_flags r) FLAG_ANY then Ok else NoDigitsConsumed
  end.

(** ** The input and its cursor *)

Definition code (c : ascii) : Z := Z.of_nat (nat_of_ascii c).

Fixpoint codes (s : string) : list Z :=
  match s with
  | EmptyString => []
  | String c s' => code c :: codes s'
  end.

(** The bytes of the C string [s], its terminating NUL included. *)
Definition c_string (s : string) : list Z := codes s ++ [0].

Definition bind {A B : Type} (o : option A) (f : A -> option B) : option B :=
  match o with
  | Some a => f a
  | None => None
  end.

Notation "x <- e ;; k" := (bind e (fun x => k))
  (at level 61, e at next level, right associativity).
Notation "' p <- e ;; k" := (bind e (fun x => let p := x in k))
  (at level 61, p pattern, e at next level, right associativity).

(** [*s++]: the byte under the cursor and the cursor moved past it. *)
Definition next (s : list Z) : option (Z * list Z) :=
  match s with
  | [] => None
  | c :: s' => Some (c, s')
  end.

(** [s[n]] *)
Definition peek (s : list Z) (n : nat) : option Z := nth_error s n.

(** ** The function, piece by piece *)

(** Lines 79-81.  Returns [i], the cursor [s] and the offset of [s]. *)
Fixpoint skip_spaces (s : list Z) (off : Z) : option (Z * list Z * Z) :=
  match s with
  | [] => None
  | c :: s' => if ISSPACE c then skip_spaces s' (off + 1)
               else Some (c, s', off + 1)
  end.

(** Lines 84-90.  Returns [flags], [i], [s] and the offset of [s]. *)
Definition parse_sign (i : Z) (s : list Z) (off : Z)
  : option (Z * Z * list Z * Z) :=
  if i =? 45 then                                  (* '-' *)
    '(i', s') <- next s ;; Some (FLAG_NEG, i', s', off + 1)
  else if i =? 43 then                             (* '+' *)
    '(i', s') <- next s ;; Some (0, i', s', off + 1)
  else Some (0, i, s, off).

(** Lines 93-108.  Returns [base], the offset of [nptr], [i], [s] and the
    offset of [s]. *)
Definition detect_base (base i : Z) (s : list Z) (off : Z)
  : option (Z * Z * Z * list Z * Z) :=
  if i =? 48 then                                  (* '0' *)
    c <- peek s 0 ;;
    if (TOLOW c =? 120) && ((base =? 0) || (base =? 16)) then
      i' <- peek s 1 ;;
      Some (16, off, i', skipn 2 s, off + 2)
    else if base =? 0 then Some (8, 0, i, s, off)
    else Some (base, 0, i, s, off)
  else if base =? 0 then Some (10, 0, i, s, off)
  else Some (base, 0, i, s, off).

(** Lines 110-121: [cutoff] and [cutlim]. *)
Definition ucutoff (k : kind) (flags : Z) : Z :=
  if is_signed k then
    if flags =? 0 then to_utype k (strtoi_max k)
    else to_utype k (- to_utype k (strtoi_min k))
  else strtoi_max k.

Definition cutoff (k : kind) (flags base : Z) : Z :=
  to_type k (ucutoff k flags / base).

Definition cutlim (k : kind) (flags base : Z) : Z :=
  ucutoff k flags mod base.

(** [__builtin_mul_overflow] and [__builtin_add_overflow] on the (unsigned)
    result type: the wrapped result is stored, the return value tells
    whether the exact result did not fit. *)
Definition mul_overflow (k : kind) (a b : Z) : bool * Z :=
  (negb ((strtoi_min k <=? a * b) && (a * b <=? strtoi_max k)),
   to_type k (a * b)).

Definition add_overflow (k : kind) (a b : Z) : bool * Z :=
  (negb ((strtoi_min k <=? a + b) && (a + b <=? strtoi_max k)),
   to_type k (a + b)).

(** Lines 138-152: add the digit [i] to [val].  [co] and [cl] are [cutoff]
    and [cutlim]. *)
Definition add_digit (k : kind) (base co cl i val flags : Z) : Z * Z :=
  if USE_OVERFLOW k then
    let '(o1, v1) := mul_overflow k val (to_type k base) in
    if o1 then (v1, Z.lor flags FLAG_OFLOW)
    else
      let '(o2, v2) := add_overflow k v1 (to_type k i) in
      if o2 then (v2, Z.lor flags FLAG_OFLOW) else (v2, flags)
  else
    let flags' :=
      if (co <? val) || ((val =? co) && (cl <? i))
      then Z.lor flags 4 else flags in
    (to_type k (val * to_type k base + i), flags').

(** Lines 128-155.  [i] is the character read last, [s] the cursor after it
    and [off] the offset of [s].  Returns [val], [flags] and the offset of
    [s] when the loop is left. *)
Fixpoint digit_loop (k : kind) (base co cl : Z) (s : list Z) (off : Z)
    (i val flags : Z) : option (Z * Z * Z) :=
  let i := digit_of i in
  if base <=? i then Some (val, flags, off)
  else
    let '(val, flags) := add_digit k base co cl i val flags in
    let flags := Z.lor flags FLAG_ANY in
    match s with
    | [] => None
    | c :: s' => digit_loop k base co cl s' (off + 1) c val flags
    end.

(** Lines 157-172. *)
Definition finish (k : kind) (nptr off val flags : Z) : result :=
  let val := if has_flag flags FLAG_NEG then to_type k (- val) else val in
  let oflow := has_flag flags FLAG_OFLOW in
  let val :=
    if oflow then
      if is_signed k
      then to_type k (to_utype k (to_utype k (strtoi_max k)
                                   + to_utype k (Z.land flags FLAG_NEG)))
      else strtoi_max k
    else val in
  {| value := val;
     consumed_count := if has_flag flags FLAG_ANY then off - 1 else nptr;
     errno := if oflow then ERANGE else ENONE;
     final_flags := flags |}.

(** Lines 72-108: everything before the digit loop.  Returns [flags],
    the effective [base], the offset of [nptr], [i], [s] and the offset of
    [s]. *)
Definition prologue (mem : list Z) (ibase : Z)
  : option (Z * Z * Z * Z * list Z * Z) :=
  let base := to_uchar ibase in
  '(i, s, off) <- skip_spaces mem 0 ;;
  '(flags, i, s, off) <- parse_sign i s off ;;
  '(base, nptr, i, s, off) <- detect_base base i s off ;;
  Some (flags, base, nptr, i, s, off).

(** The whole function on the bytes of the object. *)
Definition strtoi_mem (k : kind) (mem : list Z) (ibase : Z) : option result :=
  if (36 <? to_uint k ibase) || (ibase =? 1) then
    Some {| value := 0; consumed_count := 0; errno := EINVAL; final_flags := 0 |}
  else
    '(flags, base, nptr, i, s, off) <- prologue mem ibase ;;
    let co := cutoff k flags base in
    let cl := cutlim k flags base in
    '(val, flags, off) <- digit_loop k base co cl s off i 0 flags ;;
    Some (finish k nptr off val flags).

Definition strtoi (k : kind) (nptr : string) (ibase : Z) : option result :=
  strtoi_mem k (c_string nptr) ibase.

(** The base the digit loop runs with. *)
Definition effective_base (nptr : string) (ibase : Z) : option Z :=
  '(_, base, _, _, _, _) <- prologue (c_string nptr) ibase ;; Some base.

(** What the specification calls the parse result. *)
Definition summary (o : option result) : option (Z * Z * status_t) :=
  match o with
  | Some r => Some (value r, consumed_count r, status r)
  | None => None
  end.

(** Some instantiations: 32-bit [long] and [unsigned long] (the latter with
    either overflow strategy) and a 16-bit signed kind on a target with
    16-bit [int]. *)
Definition kind_long : kind := MkKind 32 true true 32.
Definition kind_ulong : kind := MkKind 32 false true 32.
Definition kind_ulong_cutoff : kind := MkKind 32 false false 32.
Definition kind_int16 : kind := MkKind 16 true false 16.

(** The kinds the statements below range over: the result type has at least
    the eight bits of a [char], [int] at least sixteen. *)
Definition well_formed (k : kind) : Prop := 8 <= bits k /\ 16 <= int_bits k.

(** A base the function accepts. *)
Definition valid_base (b : Z) : Prop := b = 0 \/ 2 <= b <= 36.

(** ** Rendering integers *)

Definition digit_code (upper : bool) (d : Z) : Z :=
  if d <? 10 then 48 + d else (if upper then 65 else 97) + (d - 10).

Definition digit_char (upper : bool) (d : Z) : ascii :=
  ascii_of_nat (Z.to_nat (digit_code upper d)).

(** The digits of [m] in base [b], most significant first.  [fuel] bounds
    the number of divisions; the binary length of [m] is enough. *)
Fixpoint digits_aux (fuel : nat) (b m : Z) : list Z :=
  match fuel with
  | O => [m]
  | S fuel' => if m <? b then [m]
               else digits_aux fuel' b (m / b) ++ [m mod b]
  end.

Definition digits (b m : Z) : list Z :=
  digits_aux (Z.to_nat (Z.log2 m)) b m.

Fixpoint render_digits (upper : bool) (ds : list Z) : string :=
  match ds with
  | [] => EmptyString
  | d :: ds' => String (digit_char upper d) (render_digits upper ds')
  end.

(** The canonical rendering: a ['-'] first when [v] is negative, then the
    digits of the magnitude without leading zeros. *)
Definition render (upper : bool) (b v : Z) : string :=
  if v <? 0 then String "-" (render_digits upper (digits b (- v)))
  else render_digits upper (digits b v).

(** The number a digit list denotes, continuing from [v]. *)
Definition eval_digits (b v : Z) (ds : list Z) : Z :=
  fold_left (fun a d => a * b + d) ds v.

(** One round of the loop on a digit value, and the loop on a list of them. *)
Definition step (k : kind) (base co cl : Z) (st : Z * Z) (d : Z) : Z * Z :=
  let '(v, f) := add_digit k base co cl d (fst st) (snd st) in
  (v, Z.lor f FLAG_ANY).

Definition accum (k : kind) (base co cl : Z) (ds : list Z) (st : Z * Z)
  : Z * Z := fold_left (step k base co cl) ds st.

(** ** Notions used in the statements and proofs *)

Fixpoint below (n : nat) (P : Z -> bool) : bool :=
  match n with
  | O => true
  | S n' => P (Z.of_nat n') && below n' P
  end.

(** Modelled from the spec: [digit_value] of section 4.1, which maps
    ['0'..'9'] to 0-9 and the letters, in either case, to 10-35; every other
    character is not a digit. *)
Definition spec_digit_value (c : Z) : option Z :=
  if (48 <=? c) && (c <=? 57) then Some (c - 48)
  else if (97 <=? c) && (c <=? 122) then Some (c - 97 + 10)
  else if (65 <=? c) && (c <=? 90) then Some (c - 65 + 10)
  else None.

(** The codes between ['9'] and ['A']: [: ; < = > ? @]. *)
Definition between_9_and_A (c : Z) : bool := (58 <=? c) && (c <=? 64).

Definition digit_of_row (c : Z) : bool :=
  match spec_digit_value c with
  | Some d => digit_of c =? d
  | None => if between_9_and_A c then digit_of c =? c - 48
            else 36 <=? digit_of c
  end.

(** The characters [render] writes. *)
Definition digit_code_row (upper : bool) (d : Z) : bool :=
  let c := digit_code upper d in
  (0 <? c) && (c <? 256) && (digit_of c =? d) && negb (ISSPACE c)
  && negb (c =? 45) && negb (c =? 43)
  && Bool.eqb (c =? 48) (d =? 0)
  && (negb (TOLOW c =? 120) || (d =? 33)).

(** [U] is the bound the cut-off strategy derives its two numbers from: the
    maximum, or one more for a negative number of a signed kind. *)
Definition cut_ok (k : kind) (U : Z) : Prop :=
  U = strtoi_max k \/ (is_signed k = true /\ U = strtoi_max k + 1).

Definition sign_string (neg : bool) : string :=
  if neg then "-"%string else EmptyString.

Definition sign_flag (neg : bool) : Z := if neg then FLAG_NEG else 0.

Definition sign_length (neg : bool) : Z := if neg then 1 else 0.

(** Value and status of a result. *)
Definition outcome (o : option result) : option (Z * status_t) :=
  match o with
  | Some r => Some (value r, status r)
  | None => None
  end.

Inductive sign_t : Type := NoSign | Plus | Minus.

Definition sign_text (sg : sign_t) : string :=
  match sg with
  | NoSign => EmptyString
  | Plus => "+"%string
  | Minus => "-"%string
  end.

Definition sign_flags (sg : sign_t) : Z :=
  match sg with
  | Minus => FLAG_NEG
  | _ => 0
  end.

Fixpoint all_space (s : string) : bool :=
  match s with
  | EmptyString => true
  | String c s' => ISSPACE (code c) && all_space s'
  end.

(** The first byte of the C string [s]: its first character, or the
    terminating NUL. *)
Definition head_code (s : string) : Z :=
  match s with
  | EmptyString => 0
  | String c _ => code c
  end.

(** [s] starts with neither a blank nor a sign. *)
Definition plain_start (s : string) : bool :=
  negb (ISSPACE (head_code s))
  && negb (head_code s =? 45) && negb (head_code s =? 43).

(** [s] starts with ["0x"] or ["0X"]. *)
Definition hex_prefixed (s : string) : bool :=
  match s with
  | String c0 (String c1 _) =>
      (code c0 =? 48) && ((code c1 =? 120) || (code c1 =? 88))
  | _ => false
  end.

(** What [strtoi] does once blanks and sign are behind it: [flags] holds
    the sign, [off0] is the offset of the first byte of [body]. *)
Definition parse_body (k : kind) (flags ibase : Z) (body : string) (off0 : Z)
  : option result :=
  '(i, s) <- next (c_string body) ;;
  '(base, nptr, i, s, off) <- detect_base (to_uchar ibase) i s (off0 + 1) ;;
  '(val, flags', off) <-
     digit_loop k base (cutoff k flags base) (cutlim k flags base)
       s off i 0 flags ;;
  Some (finish k nptr off val flags').

Definition lead_length (ws : string) (sg : sign_t) : Z :=
  Z.of_nat (String.length ws) + Z.of_nat (String.length (sign_text sg)).

Definition string_tail (s : string) : string :=
  match s with
  | EmptyString => EmptyString
  | String _ s' => s'
  end.

(** The bytes of the C string [s] after its first byte. *)
Definition rest_codes (s : string) : list Z :=
  match s with
  | EmptyString => []
  | String _ s' => c_string s'
  end.

(** The values of the longest run of characters at the start of [s] that
    the loop takes for digits of [base]. *)
Fixpoint run_digits (base : Z) (s : string) : list Z :=
  match s with
  | EmptyString => []
  | String c s' => if digit_of (code c) <? base
                   then digit_of (code c) :: run_digits base s'
                   else []
  end.

(** The ["0x"] prefix is skipped. *)
Definition prefix_taken (ibase : Z) (body : string) : bool :=
  hex_prefixed body && ((ibase =? 0) || (ibase =? 16)).

Definition chosen_base (ibase : Z) (body : string) : Z :=
  if prefix_taken ibase body then 16
  else if ibase =? 0 then (if head_code body =? 48 then 8 else 10)
  else ibase.

Definition number_part (ibase : Z) (body : string) : string :=
  if prefix_taken ibase body then string_tail (string_tail body) else body.

Definition TOLOW_row (c : Z) : bool :=
  Bool.eqb (TOLOW c =? 120) ((c =? 120) || (c =? 88)).

(** Modelled from the spec: a valid hexadecimal digit is a character whose
    [digit_value] is below 16. *)
Definition is_hex_digit (c : Z) : bool :=
  match spec_digit_value c with
  | Some d => d <? 16
  | None => false
  end.

(** ** Notions used in the further properties *)

(** The same instantiation built with or without the overflow builtins. *)
Definition with_builtins (k : kind) (b : bool) : kind :=
  MkKind (bits k) (is_signed k) b (int_bits k).

(** Lower-casing of the letters ['A'..'Z']; every other character is kept. *)
Definition lower_code (c : Z) : Z :=
  if (65 <=? c) && (c <=? 90) then c + 32 else c.

Definition lower_char (c : ascii) : ascii :=
  ascii_of_nat (Z.to_nat (lower_code (code c))).

Fixpoint lower (s : string) : string :=
  match s with
  | EmptyString => EmptyString
  | String c s' => String (lower_char c) (lower s')
  end.

Definition lower_row (c : Z) : bool :=
  let c' := lower_code c in
  (0 <=? c') && (c' <? 256)
  && (digit_of c' =? digit_of c)
  && Bool.eqb (ISSPACE c') (ISSPACE c)
  && Bool.eqb (c' =? 45) (c =? 45) && Bool.eqb (c' =? 43) (c =? 43)
  && Bool.eqb (c' =? 48) (c =? 48)
  && Bool.eqb ((c' =? 120) || (c' =? 88)) ((c =? 120) || (c =? 88)).

(** The sign of a number in [strtoi_type] arithmetic. *)
Definition signed_value (sg : sign_t) (m : Z) : Z :=
  match sg with
  | Minus => - m
  | _ => m
  end.

(** The first [n] characters of [s]. *)
Fixpoint string_take (n : nat) (s : string) : string :=
  match n, s with
  | S n', String c s' => String c (string_take n' s')
  | _, _ => EmptyString
  end.

(** The offset stored through [endptr], in terms of the input. *)
Definition stop_offset (ws : string) (sg : sign_t) (body : string)
    (ibase : Z) : Z :=
  let ds := run_digits (chosen_base ibase body) (number_part ibase body) in
  match ds with
  | [] => if prefix_taken ibase body then lead_length ws sg + 1 else 0
  | _ => lead_length ws sg + (if prefix_taken ibase body then 2 else 0)
         + Z.of_nat (Datatypes.length ds)
  end.

Definition after_sign_row (c : Z) : bool :=
  if ISSPACE c || (c =? 45) || (c =? 43)
  then (36 <=? digit_of c) && negb (c =? 48)
  else true.

(** * Proofs *)

(** ** Arithmetic of the result type *)

Lemma pow_bits (k : kind) :
  well_formed k ->
  2 ^ bits k = 2 * 2 ^ (bits k - 1) /\ 128 <= 2 ^ (bits k - 1).
Proof.
  intros [Hb _]. split.
  - replace (bits k) with (Z.succ (bits k - 1)) at 1 by lia.
    apply Z.pow_succ_r. lia.
  - change 128 with (2 ^ 7). apply Z.pow_le_mono_r; lia.
Qed.

Lemma strtoi_max_ge (k : kind) : well_formed k -> 127 <= strtoi_max k.
Proof.
  intros H. destruct (pow_bits k H) as [E L].
  unfold strtoi_max. destruct (is_signed k); lia.
Qed.

Lemma to_type_id (k : kind) (x : Z) :
  well_formed k -> strtoi_min k <= x <= strtoi_max k -> to_type k x = x.
Proof.
  intros H. destruct (pow_bits k H) as [E L].
  unfold strtoi_min, strtoi_max, to_type.
  destruct (is_signed k); intros Hx.
  - rewrite Z.mod_small by lia. lia.
  - apply Z.mod_small. lia.
Qed.

Lemma to_type_nonneg (k : kind) (x : Z) :
  well_formed k -> 0 <= x <= strtoi_max k -> to_type k x = x.
Proof.
  intros H Hx. apply to_type_id; trivial.
  unfold strtoi_min. destruct (pow_bits k H). destruct (is_signed k); lia.
Qed.

(** [to_type] only looks at the residue modulo [2 ^ bits]. *)
Lemma to_type_shift (k : kind) (x q : Z) :
  to_type k (x + q * 2 ^ bits k) = to_type k x.
Proof.
  unfold to_type. destruct (is_signed k).
  - replace (x + q * 2 ^ bits k + 2 ^ (bits k - 1))
      with (x + 2 ^ (bits k - 1) + q * 2 ^ bits k) by ring.
    now rewrite Z_mod_plus_full.
  - apply Z_mod_plus_full.
Qed.

Lemma to_type_rep (k : kind) (x : Z) :
  well_formed k -> exists q, to_type k x = x + q * 2 ^ bits k.
Proof.
  intros H. destruct (pow_bits k H) as [E L].
  assert (Hm : 2 ^ bits k <> 0) by lia.
  unfold to_type. destruct (is_signed k).
  - exists (- ((x + 2 ^ (bits k - 1)) / 2 ^ bits k)).
    pose proof (Z.div_mod (x + 2 ^ (bits k - 1)) (2 ^ bits k) Hm). lia.
  - exists (- (x / 2 ^ bits k)).
    pose proof (Z.div_mod x (2 ^ bits k) Hm). lia.
Qed.

Lemma to_type_neg_inner (k : kind) (x : Z) :
  well_formed k -> to_type k (- to_type k x) = to_type k (- x).
Proof.
  intros H. destruct (to_type_rep k x H) as [q ->].
  replace (- (x + q * 2 ^ bits k)) with (- x + (- q) * 2 ^ bits k) by ring.
  apply to_type_shift.
Qed.

Lemma to_type_in_range (k : kind) (x : Z) :
  well_formed k -> strtoi_min k <= to_type k x <= strtoi_max k.
Proof.
  intros H. destruct (pow_bits k H) as [E L].
  unfold to_type, strtoi_min, strtoi_max. destruct (is_signed k).
  - pose proof (Z.mod_pos_bound (x + 2 ^ (bits k - 1)) (2 ^ bits k)). lia.
  - pose proof (Z.mod_pos_bound x (2 ^ bits k)). lia.
Qed.

(** ** The flag bits *)

Lemma land_bit (f n : Z) :
  0 <= n -> Z.land f (2 ^ n) = if Z.testbit f n then 2 ^ n else 0.
Proof.
  intros Hn. apply Z.bits_inj'. intros m Hm.
  rewrite Z.land_spec, Z.pow2_bits_eqb by lia.
  destruct (Z.eqb_spec n m) as [->|Hne].
  - rewrite andb_true_r. destruct (Z.testbit f m) eqn:Ef.
    + now rewrite Z.pow2_bits_true.
    + now rewrite Z.bits_0.
  - rewrite andb_false_r. destruct (Z.testbit f n).
    + rewrite Z.pow2_bits_false; trivial.
    + now rewrite Z.bits_0.
Qed.

Lemma has_flag_bit (f n : Z) :
  0 <= n -> has_flag f (2 ^ n) = Z.testbit f n.
Proof.
  intros Hn. unfold has_flag. rewrite land_bit by trivial.
  assert (0 < 2 ^ n) by (apply Z.pow_pos_nonneg; lia).
  destruct (Z.testbit f n); simpl.
  - destruct (Z.eqb_spec (2 ^ n) 0); trivial; lia.
  - reflexivity.
Qed.

Lemma has_flag_NEG f : has_flag f FLAG_NEG = Z.testbit f 0.
Proof. exact (has_flag_bit f 0 (Z.le_refl 0)). Qed.

Lemma has_flag_ANY f : has_flag f FLAG_ANY = Z.testbit f 1.
Proof. apply (has_flag_bit f 1). lia. Qed.

Lemma has_flag_OFLOW f : has_flag f FLAG_OFLOW = Z.testbit f 2.
Proof. apply (has_flag_bit f 2). lia. Qed.

Lemma testbit_lor_ANY f n :
  Z.testbit (Z.lor f FLAG_ANY) n = Z.testbit f n || (n =? 1).
Proof.
  rewrite Z.lor_spec. f_equal. change FLAG_ANY with (2 ^ 1).
  rewrite Z.pow2_bits_eqb by lia. apply Z.eqb_sym.
Qed.

Lemma testbit_lor_OFLOW f n :
  Z.testbit (Z.lor f FLAG_OFLOW) n = Z.testbit f n || (n =? 2).
Proof.
  rewrite Z.lor_spec. f_equal. change FLAG_OFLOW with (2 ^ 2).
  rewrite Z.pow2_bits_eqb by lia. apply Z.eqb_sym.
Qed.

Lemma lor_ANY_idem f : Z.lor (Z.lor f FLAG_ANY) FLAG_ANY = Z.lor f FLAG_ANY.
Proof. now rewrite <- Z.lor_assoc, Z.lor_diag. Qed.

Create Rewrite HintDb flags.
#[local] Hint Rewrite has_flag_NEG has_flag_ANY has_flag_OFLOW
  testbit_lor_ANY testbit_lor_OFLOW : flags.

(** ** Tables over the 256 character codes *)

Lemma below_spec (n : nat) (P : Z -> bool) :
  below n P = true -> forall c, 0 <= c < Z.of_nat n -> P c = true.
Proof.
  induction n as [|n IH]; simpl; intros H c Hc; [lia|].
  apply andb_true_iff in H. destruct H as [H1 H2].
  destruct (Z.eq_dec c (Z.of_nat n)) as [->|Hne]; trivial.
  apply IH; trivial. lia.
Qed.

Lemma code_range (c : ascii) : 0 <= code c < 256.
Proof.
  unfold code. pose proof (nat_ascii_bounded c). lia.
Qed.

Lemma digit_of_table (c : Z) : 0 <= c < 256 -> digit_of_row c = true.
Proof. apply (below_spec 256). vm_compute. reflexivity. Qed.

Lemma digit_of_digit (c d : Z) :
  0 <= c < 256 -> spec_digit_value c = Some d -> digit_of c = d.
Proof.
  intros Hc E. pose proof (digit_of_table c Hc) as T.
  unfold digit_of_row in T. rewrite E in T. lia.
Qed.

Lemma digit_of_other (c : Z) :
  0 <= c < 256 -> spec_digit_value c = None -> between_9_and_A c = false ->
  36 <= digit_of c.
Proof.
  intros Hc E B. pose proof (digit_of_table c Hc) as T.
  unfold digit_of_row in T. rewrite E, B in T. lia.
Qed.

Lemma digit_of_between (c : Z) :
  between_9_and_A c = true -> digit_of c = c - 48.
Proof.
  intros B. assert (Hc : 0 <= c < 256) by (unfold between_9_and_A in B; lia).
  pose proof (digit_of_table c Hc) as T. unfold digit_of_row in T.
  replace (spec_digit_value c) with (@None Z) in T.
  - rewrite B in T. lia.
  - unfold spec_digit_value, between_9_and_A in *.
    destruct (Z.leb_spec 48 c), (Z.leb_spec c 57), (Z.leb_spec 97 c),
      (Z.leb_spec c 122), (Z.leb_spec 65 c), (Z.leb_spec c 90);
      simpl; trivial; lia.
Qed.

Lemma digit_of_NUL : digit_of 0 = 208.
Proof. reflexivity. Qed.

Lemma digit_code_table (upper : bool) (d : Z) :
  0 <= d < 36 -> digit_code_row upper d = true.
Proof.
  destruct upper; apply (below_spec 36); vm_compute; reflexivity.
Qed.

Lemma digit_code_facts (upper : bool) (d : Z) :
  0 <= d < 36 ->
  let c := digit_code upper d in
  0 < c < 256 /\ digit_of c = d /\ ISSPACE c = false /\ c <> 45 /\ c <> 43
  /\ (c = 48 -> d = 0) /\ (TOLOW c = 120 -> d = 33).
Proof.
  intros Hd c. pose proof (digit_code_table upper d Hd) as T.
  unfold digit_code_row in T. fold c in T.
  repeat (apply andb_true_iff in T; destruct T as [T ?]).
  repeat split; try lia.
  now apply negb_true_iff.
Qed.

Lemma code_digit_char (upper : bool) (d : Z) :
  0 <= d < 36 -> code (digit_char upper d) = digit_code upper d.
Proof.
  intros Hd. destruct (digit_code_facts upper d Hd) as [Hc _].
  unfold code, digit_char. rewrite nat_ascii_embedding; lia.
Qed.

Lemma codes_render_digits (upper : bool) (ds : list Z) :
  Forall (fun d => 0 <= d < 36) ds ->
  codes (render_digits upper ds) = map (digit_code upper) ds.
Proof.
  induction 1 as [|d ds Hd _ IH]; simpl; trivial.
  now rewrite IH, code_digit_char.
Qed.

Lemma codes_app (s1 s2 : string) :
  codes (s1 ++ s2) = (codes s1 ++ codes s2)%list.
Proof. induction s1 as [|c s1 IH]; simpl; congruence. Qed.

Lemma length_render_digits (upper : bool) (ds : list Z) :
  String.length (render_digits upper ds) = Datatypes.length ds.
Proof. induction ds as [|d ds IH]; simpl; congruence. Qed.

Lemma length_codes (s : string) :
  Datatypes.length (codes s) = String.length s.
Proof. induction s; simpl; congruence. Qed.

(** ** The loop on a run of digits *)

Lemma skip_spaces_app (ws : list Z) (c : Z) (s : list Z) :
  Forall (fun w => ISSPACE w = true) ws -> ISSPACE c = false ->
  forall off,
    skip_spaces (ws ++ c :: s) off
    = Some (c, s, off + Z.of_nat (Datatypes.length ws) + 1).
Proof.
  intros Hws Hc. induction Hws as [|w ws Hw _ IH]; intros off.
  - simpl. rewrite Hc. do 3 f_equal. lia.
  - cbn [app skip_spaces]. rewrite Hw, IH. do 3 f_equal.
    cbn [Datatypes.length]. lia.
Qed.

Lemma digit_loop_stop k base co cl s off i val flags :
  base <= digit_of i ->
  digit_loop k base co cl s off i val flags = Some (val, flags, off).
Proof.
  intros H. destruct s; simpl;
    destruct (Z.leb_spec base (digit_of i)); trivial; lia.
Qed.

Lemma digit_loop_cons k base co cl c s off i val flags :
  digit_of i < base ->
  digit_loop k base co cl (c :: s) off i val flags
  = let st := step k base co cl (val, flags) (digit_of i) in
    digit_loop k base co cl s (off + 1) c (fst st) (snd st).
Proof.
  intros H. simpl. destruct (Z.leb_spec base (digit_of i)); [lia|].
  unfold step. simpl.
  destruct (add_digit k base co cl (digit_of i) val flags). reflexivity.
Qed.

Lemma digit_loop_run k base co cl (cs : list Z) :
  forall i t rest off val flags,
    Forall (fun c => digit_of c < base) (i :: cs) -> base <= digit_of t ->
    digit_loop k base co cl (cs ++ t :: rest) off i val flags
    = let st := accum k base co cl (map digit_of (i :: cs)) (val, flags) in
      Some (fst st, snd st, off + Z.of_nat (Datatypes.length (i :: cs))).
Proof.
  induction cs as [|c cs IH]; intros i t rest off val flags Hd Ht;
    inversion Hd as [|? ? Hi Hcs]; subst.
  - cbn [app]. rewrite digit_loop_cons by trivial. cbv zeta.
    now rewrite digit_loop_stop.
  - cbn [app]. rewrite digit_loop_cons by trivial. cbv zeta.
    rewrite IH by trivial. cbv zeta. cbn [map accum fold_left].
    destruct (step k base co cl (val, flags) (digit_of i)) as [v f].
    cbn [fst snd]. do 2 f_equal. cbn [Datatypes.length]. lia.
Qed.

(** *** One digit *)

Lemma ucutoff_plus (k : kind) :
  well_formed k -> ucutoff k 0 = strtoi_max k.
Proof.
  intros H. destruct (pow_bits k H) as [E L].
  unfold ucutoff, to_utype, strtoi_max. simpl.
  destruct (is_signed k); trivial. apply Z.mod_small. lia.
Qed.

Lemma ucutoff_minus (k : kind) :
  well_formed k ->
  ucutoff k FLAG_NEG = strtoi_max k + (if is_signed k then 1 else 0).
Proof.
  intros H. destruct (pow_bits k H) as [E L].
  unfold ucutoff, to_utype, strtoi_max, strtoi_min. simpl.
  destruct (is_signed k); [|lia].
  replace (- 2 ^ (bits k - 1)) with (2 ^ (bits k - 1) + (-1) * 2 ^ bits k)
    by lia.
  rewrite Z_mod_plus_full, (Z.mod_small (2 ^ (bits k - 1))) by lia.
  replace (- 2 ^ (bits k - 1)) with (2 ^ (bits k - 1) + (-1) * 2 ^ bits k)
    by lia.
  rewrite Z_mod_plus_full, Z.mod_small; lia.
Qed.

Lemma cut_ok_sign (k : kind) (neg : bool) :
  well_formed k -> cut_ok k (ucutoff k (if neg then FLAG_NEG else 0)).
Proof.
  intros H. destruct neg.
  - rewrite ucutoff_minus by trivial. unfold cut_ok.
    destruct (is_signed k); [right; split; trivial | left; lia].
  - left. now apply ucutoff_plus.
Qed.

Section OneDigit.
Variables (k : kind) (base U : Z).
Hypothesis Hk : well_formed k.
Hypothesis Hbase : 2 <= base <= 36.
Hypothesis HU : cut_ok k U.

Let co := to_type k (U / base).
Let cl := U mod base.

Lemma cutoff_exact : co = U / base /\ 0 <= U / base <= strtoi_max k.
Proof.
  pose proof (strtoi_max_ge k Hk) as Hmax.
  assert (B : 0 <= U / base <= strtoi_max k).
  { assert (0 <= U <= strtoi_max k + 1) by (destruct HU as [->|[_ ->]]; lia).
    split; [apply Z.div_pos; lia|].
    apply Z.le_trans with (U / 2).
    - apply Z.div_le_compat_l; lia.
    - apply Z.div_le_upper_bound; lia. }
  split; trivial. unfold co. now apply to_type_nonneg.
Qed.

Lemma base_cast : to_type k base = base.
Proof. pose proof (strtoi_max_ge k Hk). apply to_type_nonneg; trivial; lia. Qed.

Lemma unsigned_cut : is_signed k = false -> U = strtoi_max k.
Proof. intros E. destruct HU as [->|[E' _]]; congruence. Qed.

Lemma add_digit_fits (d v f : Z) :
  0 <= d < base -> 0 <= v <= strtoi_max k -> v * base + d <= U ->
  add_digit k base co cl d v f = (to_type k (v * base + d), f).
Proof.
  intros Hd Hv Hfit. pose proof (strtoi_max_ge k Hk) as Hmax.
  destruct cutoff_exact as [Eco Bco].
  unfold add_digit. destruct (USE_OVERFLOW k) eqn:EU.
  - unfold USE_OVERFLOW in EU. apply andb_true_iff in EU.
    destruct EU as [_ Es]. apply negb_true_iff in Es.
    pose proof (unsigned_cut Es) as EUm.
    assert (Emin : strtoi_min k = 0) by (unfold strtoi_min; now rewrite Es).
    unfold mul_overflow, add_overflow. rewrite base_cast, Emin.
    assert (Hvb : 0 <= v * base <= strtoi_max k) by nia.
    rewrite (to_type_nonneg k (v * base)), (to_type_nonneg k d)
      by (trivial; lia).
    destruct (Z.leb_spec 0 (v * base)), (Z.leb_spec (v * base) (strtoi_max k));
      try lia. simpl.
    destruct (Z.leb_spec 0 (v * base + d)),
      (Z.leb_spec (v * base + d) (strtoi_max k)); try lia. reflexivity.
  - rewrite base_cast, Eco.
    pose proof (Z.div_mod U base ltac:(lia)) as DM.
    pose proof (Z.mod_pos_bound U base ltac:(lia)) as MB. fold cl in DM, MB.
    replace ((U / base <? v) || ((v =? U / base) && (cl <? d)))
      with false; trivial.
    symmetry. apply orb_false_iff. split.
    + apply Z.ltb_ge. nia.
    + destruct (Z.eqb_spec v (U / base)); simpl; trivial.
      apply Z.ltb_ge. nia.
Qed.

Lemma add_digit_over (d v f : Z) :
  0 <= d < base -> 0 <= v <= strtoi_max k -> U < v * base + d ->
  snd (add_digit k base co cl d v f) = Z.lor f FLAG_OFLOW.
Proof.
  intros Hd Hv Hover. pose proof (strtoi_max_ge k Hk) as Hmax.
  destruct cutoff_exact as [Eco Bco].
  unfold add_digit. destruct (USE_OVERFLOW k) eqn:EU.
  - unfold USE_OVERFLOW in EU. apply andb_true_iff in EU.
    destruct EU as [_ Es]. apply negb_true_iff in Es.
    pose proof (unsigned_cut Es) as EUm.
    assert (Emin : strtoi_min k = 0) by (unfold strtoi_min; now rewrite Es).
    unfold mul_overflow, add_overflow. rewrite base_cast, Emin.
    destruct (Z.leb_spec (v * base) (strtoi_max k)) as [Hle|Hgt].
    + destruct (Z.leb_spec 0 (v * base)); [|nia]. simpl.
      rewrite (to_type_nonneg k (v * base)), (to_type_nonneg k d)
        by (trivial; lia).
      destruct (Z.leb_spec (v * base + d) (strtoi_max k)); [lia|].
      now rewrite andb_false_r.
    + now rewrite andb_false_r.
  - rewrite base_cast, Eco. cbn [snd].
    pose proof (Z.div_mod U base ltac:(lia)) as DM.
    pose proof (Z.mod_pos_bound U base ltac:(lia)) as MB. fold cl in DM, MB.
    replace ((U / base <? v) || ((v =? U / base) && (cl <? d)))
      with true; trivial.
    symmetry. destruct (Z.ltb_spec (U / base) v); simpl; trivial.
    assert (v = U / base) by nia. subst v.
    rewrite Z.eqb_refl. simpl. apply Z.ltb_lt. nia.
Qed.
End OneDigit.

(** *** A list of digits *)

Lemma eval_digits_app (b v : Z) (ds1 ds2 : list Z) :
  eval_digits b v (ds1 ++ ds2) = eval_digits b (eval_digits b v ds1) ds2.
Proof. apply fold_left_app. Qed.

Lemma eval_digits_ge (b : Z) (ds : list Z) :
  1 <= b -> Forall (fun d => 0 <= d < b) ds ->
  forall v, 0 <= v -> v <= eval_digits b v ds.
Proof.
  intros Hb. induction 1 as [|d ds Hd _ IH]; intros v Hv; simpl; [lia|].
  specialize (IH (v * b + d)). nia.
Qed.

Lemma eval_digits_grow (b : Z) (d : Z) (ds : list Z) (v : Z) :
  1 <= b -> Forall (fun d => 0 <= d < b) (d :: ds) -> 0 <= v ->
  v * b <= eval_digits b v (d :: ds).
Proof.
  intros Hb H Hv. inversion H as [|? ? Hd Hds]; subst. simpl.
  pose proof (eval_digits_ge b ds Hb Hds (v * b + d)). nia.
Qed.

Lemma accum_app k base co cl ds1 ds2 st :
  accum k base co cl (ds1 ++ ds2) st
  = accum k base co cl ds2 (accum k base co cl ds1 st).
Proof. apply fold_left_app. Qed.

Lemma add_digit_flags k base co cl d v f :
  snd (add_digit k base co cl d v f) = f
  \/ snd (add_digit k base co cl d v f) = Z.lor f FLAG_OFLOW.
Proof.
  unfold add_digit, mul_overflow, add_overflow.
  destruct (USE_OVERFLOW k); repeat match goal with
    | |- context [if ?c then _ else _] => destruct c
    end; simpl; auto.
Qed.

(** A round of the loop sets [FLAG_ANY], may set [FLAG_OFLOW] and leaves
    every other bit alone. *)
Lemma step_bits k base co cl v f d n :
  let f' := snd (step k base co cl (v, f) d) in
  Z.testbit f' 1 = true
  /\ (Z.testbit f 2 = true -> Z.testbit f' 2 = true)
  /\ (n <> 1 -> n <> 2 -> Z.testbit f' n = Z.testbit f n).
Proof.
  unfold step. cbn [fst snd].
  pose proof (add_digit_flags k base co cl d v f) as H.
  destruct (add_digit k base co cl d v f) as [v' f1]. cbn [snd] in *.
  destruct H as [-> | ->]; autorewrite with flags; repeat split;
    try (intros ->); try apply orb_true_r; simpl; trivial; intros H1 H2.
  - destruct (Z.eqb_spec n 1); [lia|]. now rewrite orb_false_r.
  - destruct (Z.eqb_spec n 1), (Z.eqb_spec n 2); try lia.
    now rewrite !orb_false_r.
Qed.

Lemma accum_bits k base co cl (ds : list Z) n :
  forall v f,
    let f' := snd (accum k base co cl ds (v, f)) in
    (ds <> [] -> Z.testbit f' 1 = true)
    /\ (Z.testbit f 2 = true -> Z.testbit f' 2 = true)
    /\ (n <> 1 -> n <> 2 -> Z.testbit f' n = Z.testbit f n).
Proof.
  induction ds as [|d ds IH]; intros v f; cbn [accum fold_left].
  - cbn [snd]. repeat split; congruence.
  - destruct (step k base co cl (v, f) d) as [v1 f1] eqn:E.
    pose proof (step_bits k base co cl v f d n) as S.
    rewrite E in S. cbn [snd] in S. destruct S as (S1 & S2 & S3).
    specialize (IH v1 f1). cbv zeta in IH. fold (accum k base co cl ds (v1, f1)).
    destruct IH as (I1 & I2 & I3). repeat split.
    + intros _. destruct ds as [|d' ds]; [exact S1|].
      apply I1. discriminate.
    + auto.
    + intros H1 H2. now rewrite I3, S3.
Qed.

Section DigitList.
Variables (k : kind) (base U : Z).
Hypothesis Hk : well_formed k.
Hypothesis Hbase : 2 <= base <= 36.
Hypothesis HU : cut_ok k U.

Let co := to_type k (U / base).
Let cl := U mod base.

(** While the number read so far fits, the loop holds exactly that
    number and raises no overflow. *)
Lemma accum_fits (ds : list Z) :
  Forall (fun d => 0 <= d < base) ds ->
  forall v f,
    0 <= v <= strtoi_max k -> eval_digits base v ds <= U ->
    accum k base co cl ds (v, f)
    = (to_type k (eval_digits base v ds),
       match ds with [] => f | _ => Z.lor f FLAG_ANY end).
Proof.
  induction 1 as [|d ds Hd Hds IH]; intros v f Hv Hfit.
  - simpl. now rewrite to_type_nonneg.
  - cbn [accum fold_left eval_digits] in *.
    fold (eval_digits base (v * base + d) ds) in *.
    fold (accum k base co cl ds (step k base co cl (v, f) d)).
    assert (H1 : v * base + d <= eval_digits base (v * base + d) ds)
      by (apply eval_digits_ge; trivial; nia).
    unfold step. cbn [fst snd]. unfold co, cl.
    rewrite add_digit_fits by (trivial; lia). fold co cl.
    destruct ds as [|d' ds'].
    + reflexivity.
    + assert (H2 : (v * base + d) * base
                   <= eval_digits base (v * base + d) (d' :: ds'))
        by (apply eval_digits_grow; trivial; nia).
      assert (H3 : v * base + d <= strtoi_max k)
        by (destruct HU as [->|[_ ->]]; nia).
      rewrite (to_type_nonneg k (v * base + d)) by (trivial; nia).
      rewrite IH by (trivial; nia). now rewrite lor_ANY_idem.
Qed.

(** One digit too many: the last round raises the overflow flag. *)
Lemma accum_last_over (ds : list Z) (d f : Z) :
  Forall (fun d => 0 <= d < base) ds -> 0 <= d < base ->
  eval_digits base 0 ds <= strtoi_max k ->
  U < eval_digits base 0 (ds ++ [d]) ->
  Z.testbit (snd (accum k base co cl (ds ++ [d]) (0, f))) 2 = true.
Proof.
  intros Hds Hd Hfit Hover. pose proof (strtoi_max_ge k Hk) as Hmax.
  assert (HfitU : eval_digits base 0 ds <= U)
    by (destruct HU as [->|[_ ->]]; lia).
  assert (Hpos : 0 <= eval_digits base 0 ds)
    by (apply eval_digits_ge; trivial; lia).
  rewrite accum_app, accum_fits by (trivial; lia).
  rewrite eval_digits_app in Hover. simpl in Hover.
  cbn [accum fold_left]. unfold step. cbn [fst snd].
  rewrite (to_type_nonneg k (eval_digits base 0 ds)) by (trivial; lia).
  pose proof (add_digit_over k base U Hk Hbase HU d (eval_digits base 0 ds)
                (match ds with [] => f | _ => Z.lor f FLAG_ANY end)
                Hd ltac:(lia) ltac:(lia)) as O.
  fold co cl in O.
  destruct (add_digit k base co cl d (eval_digits base 0 ds) _) as [v' f'].
  cbn [snd] in *. subst f'. autorewrite with flags.
  now rewrite orb_true_r.
Qed.
End DigitList.

(** ** Canonical digits *)

Lemma digits_aux_spec (b : Z) (fuel : nat) :
  2 <= b ->
  forall m, 0 <= m < 2 ^ (Z.of_nat fuel + 1) ->
    Forall (fun d => 0 <= d < b) (digits_aux fuel b m)
    /\ eval_digits b 0 (digits_aux fuel b m) = m
    /\ (exists d ds, digits_aux fuel b m = d :: ds /\ (d = 0 -> m = 0 /\ ds = [])).
Proof.
  intros Hb. induction fuel as [|fuel IH]; intros m Hm.
  - simpl in *. repeat split.
    + constructor; [lia | constructor].
    + exists m, []. split; trivial. split; trivial.
  - cbn [digits_aux]. destruct (Z.ltb_spec m b) as [Hlt|Hge].
    + repeat split.
      * constructor; [lia | constructor].
      * exists m, []. split; trivial. split; trivial.
    + assert (Hq : 0 <= m / b < 2 ^ (Z.of_nat fuel + 1)).
      { split; [apply Z.div_pos; lia|].
        apply Z.div_lt_upper_bound; [lia|].
        replace (Z.of_nat (S fuel) + 1) with (Z.succ (Z.of_nat fuel + 1)) in Hm
          by lia.
        rewrite Z.pow_succ_r in Hm by lia.
        assert (0 < 2 ^ (Z.of_nat fuel + 1)) by (apply Z.pow_pos_nonneg; lia).
        nia. }
      destruct (IH (m / b) Hq) as (F & E & d & ds & Eq & Hz).
      pose proof (Z.mod_pos_bound m b ltac:(lia)) as MB.
      pose proof (Z.div_mod m b ltac:(lia)) as DM.
      repeat split.
      * apply Forall_app. split; trivial. constructor; [lia | constructor].
      * rewrite eval_digits_app, E. simpl. lia.
      * exists d, (ds ++ [m mod b])%list. rewrite Eq. split; trivial.
        intros Hd. destruct (Hz Hd) as [Hq0 _].
        assert (1 <= m / b) by (apply Z.div_le_lower_bound; lia). lia.
Qed.

Lemma log2_fuel (m : Z) : 0 <= m -> m < 2 ^ (Z.of_nat (Z.to_nat (Z.log2 m)) + 1).
Proof.
  intros Hm. rewrite Z2Nat.id by apply Z.log2_nonneg.
  destruct (Z.eq_dec m 0) as [->|Hne]; [reflexivity|].
  apply (Z.log2_spec m). lia.
Qed.

Lemma digits_spec (b m : Z) :
  2 <= b -> 0 <= m ->
  Forall (fun d => 0 <= d < b) (digits b m)
  /\ eval_digits b 0 (digits b m) = m
  /\ (exists d ds, digits b m = d :: ds /\ (d = 0 -> m = 0 /\ ds = [])).
Proof.
  intros Hb Hm. apply digits_aux_spec; trivial.
  split; trivial. now apply log2_fuel.
Qed.

(** Above [b], the digits are those of the quotient and one more. *)
Lemma digits_snoc (b m : Z) :
  2 <= b <= m ->
  exists ds, digits b m = (ds ++ [m mod b])%list
             /\ Forall (fun d => 0 <= d < b) ds
             /\ eval_digits b 0 ds = m / b.
Proof.
  intros [Hb Hm]. unfold digits.
  pose proof (log2_fuel m ltac:(lia)) as Hf.
  destruct (Z.to_nat (Z.log2 m)) as [|fuel] eqn:Ef.
  - simpl in Hf. lia.
  - cbn [digits_aux]. destruct (Z.ltb_spec m b); [lia|].
    exists (digits_aux fuel b (m / b)). split; trivial.
    assert (Hq : 0 <= m / b < 2 ^ (Z.of_nat fuel + 1)).
    { split; [apply Z.div_pos; lia|].
      apply Z.div_lt_upper_bound; [lia|].
      replace (Z.of_nat (S fuel) + 1) with (Z.succ (Z.of_nat fuel + 1)) in Hf
        by lia.
      rewrite Z.pow_succ_r in Hf by lia.
      assert (0 < 2 ^ (Z.of_nat fuel + 1)) by (apply Z.pow_pos_nonneg; lia).
      nia. }
    destruct (digits_aux_spec b fuel Hb (m / b) Hq) as (F & E & _). auto.
Qed.

Lemma digits_36 (b : Z) (ds : list Z) :
  b <= 36 -> Forall (fun d => 0 <= d < b) ds -> Forall (fun d => 0 <= d < 36) ds.
Proof. intros Hb. apply Forall_impl. intros; lia. Qed.

(** ** Parsing a sign and a run of digits *)

Lemma valid_base_accepted (k : kind) (b : Z) :
  well_formed k -> valid_base b ->
  (36 <? to_uint k b) || (b =? 1) = false /\ to_uchar b = b.
Proof.
  intros [_ Hi] Hb.
  assert (65536 <= 2 ^ int_bits k)
    by (change 65536 with (2 ^ 16); apply Z.pow_le_mono_r; lia).
  assert (0 <= b <= 36 /\ b <> 1) as [Hr Hn1] by (destruct Hb; lia).
  unfold to_uint, to_uchar. rewrite !Z.mod_small by lia. split; trivial.
  destruct (Z.ltb_spec 36 b), (Z.eqb_spec b 1); trivial; lia.
Qed.

Lemma detect_base_digits (upper : bool) (b d : Z) (ds : list Z) (off : Z) :
  2 <= b <= 36 -> Forall (fun d => 0 <= d < b) (d :: ds) ->
  detect_base b (digit_code upper d) (map (digit_code upper) ds ++ [0]) off
  = Some (b, 0, digit_code upper d, map (digit_code upper) ds ++ [0], off).
Proof.
  intros Hb Hds. unfold detect_base.
  assert (E0 : (b =? 0) = false) by (apply Z.eqb_neq; lia). rewrite E0.
  destruct (Z.eqb_spec (digit_code upper d) 48); trivial.
  inversion Hds as [|? ? Hd Hds']; subst.
  destruct ds as [|d' ds']; cbn [map app peek nth_error bind].
  - reflexivity.
  - inversion Hds' as [|? ? Hd' _]; subst.
    destruct (digit_code_facts upper d' ltac:(lia)) as (_ & _ & _ & _ & _ & _ & Hx).
    destruct (Z.eqb_spec (TOLOW (digit_code upper d')) 120) as [Ex|]; trivial.
    specialize (Hx Ex). subst d'.
    destruct (Z.eqb_spec b 16); [lia|]. reflexivity.
Qed.

Lemma prologue_sign_digits (upper neg : bool) (b d : Z) (ds : list Z) :
  2 <= b <= 36 -> Forall (fun d => 0 <= d < b) (d :: ds) ->
  prologue (c_string (sign_string neg ++ render_digits upper (d :: ds))) b
  = Some (sign_flag neg, b, 0, digit_code upper d,
          (map (digit_code upper) ds ++ [0])%list, sign_length neg + 1).
Proof.
  intros Hb Hds.
  assert (H36 : Forall (fun d => 0 <= d < 36) (d :: ds))
    by (apply (digits_36 b); trivial; lia).
  unfold c_string. rewrite codes_app, codes_render_digits by trivial.
  inversion Hds as [|? ? Hd _]; subst.
  destruct (digit_code_facts upper d ltac:(lia)) as (_ & _ & Hsp & H45 & H43 & _).
  unfold prologue, to_uchar. rewrite Z.mod_small by lia.
  destruct neg; cbn [sign_string codes map app skip_spaces bind].
  - change (code "-") with 45. change (ISSPACE 45) with false. cbv iota.
    cbn [bind]. unfold parse_sign. change (45 =? 45) with true. cbv iota.
    cbn [next bind]. rewrite (detect_base_digits upper b d ds) by trivial.
    reflexivity.
  - rewrite Hsp. cbn [bind]. unfold parse_sign.
    destruct (Z.eqb_spec (digit_code upper d) 45); [lia|].
    destruct (Z.eqb_spec (digit_code upper d) 43); [lia|].
    cbn [bind]. rewrite (detect_base_digits upper b d ds) by trivial.
    reflexivity.
Qed.

Lemma map_digit_of_code (upper : bool) (ds : list Z) :
  Forall (fun d => 0 <= d < 36) ds ->
  map digit_of (map (digit_code upper) ds) = ds.
Proof.
  induction 1 as [|d ds Hd _ IH]; simpl; trivial.
  destruct (digit_code_facts upper d Hd) as (_ & -> & _). now rewrite IH.
Qed.

(** A sign and a run of digits up to the end of the string: the loop reads
    every digit and stops at the terminating NUL. *)
Lemma strtoi_sign_digits (k : kind) (upper neg : bool) (b : Z) (ds : list Z) :
  well_formed k -> 2 <= b <= 36 ->
  Forall (fun d => 0 <= d < b) ds -> ds <> [] ->
  strtoi k (sign_string neg ++ render_digits upper ds) b
  = let f0 := sign_flag neg in
    let st := accum k b (cutoff k f0 b) (cutlim k f0 b) ds (0, f0) in
    Some (finish k 0 (sign_length neg + 1 + Z.of_nat (Datatypes.length ds))
            (fst st) (snd st)).
Proof.
  intros Hk Hb Hds Hne. destruct ds as [|d ds]; [congruence|].
  assert (H36 : Forall (fun d => 0 <= d < 36) (d :: ds))
    by (apply (digits_36 b); trivial; lia).
  unfold strtoi, strtoi_mem.
  destruct (valid_base_accepted k b Hk) as [-> _]; [right; lia|].
  rewrite prologue_sign_digits by trivial. cbn [bind].
  rewrite digit_loop_run.
  - cbv zeta. rewrite <- map_cons, map_digit_of_code by trivial.
    cbn [bind]. rewrite length_map. reflexivity.
  - rewrite <- map_cons. apply Forall_map.
    eapply Forall_impl; [|exact (Forall_and Hds H36)].
    intros a [Ha Ha36]. cbv beta.
    destruct (digit_code_facts upper a Ha36) as (_ & -> & _). lia.
  - rewrite digit_of_NUL. lia.
Qed.

(** ** Finalisation *)

Lemma finish_plain (k : kind) (nptr off v f : Z) :
  Z.testbit f 1 = true -> Z.testbit f 2 = false ->
  summary (Some (finish k nptr off v f))
  = Some (if Z.testbit f 0 then to_type k (- v) else v, off - 1, Ok).
Proof.
  intros H1 H2. unfold summary, finish, status. cbn [value consumed_count errno final_flags].
  autorewrite with flags. now rewrite H1, H2.
Qed.

Lemma clamp_value (k : kind) (f : Z) :
  well_formed k -> is_signed k = true ->
  to_type k (to_utype k (to_utype k (strtoi_max k)
                         + to_utype k (Z.land f FLAG_NEG)))
  = if Z.testbit f 0 then strtoi_min k else strtoi_max k.
Proof.
  intros H Es. destruct (pow_bits k H) as [E L].
  change FLAG_NEG with (2 ^ 0). rewrite land_bit by lia.
  unfold to_type, to_utype, strtoi_max, strtoi_min. rewrite Es.
  rewrite (Z.mod_small (2 ^ (bits k - 1) - 1)) by lia.
  destruct (Z.testbit f 0).
  - rewrite (Z.mod_small (2 ^ 0)) by (simpl; lia).
    change (2 ^ 0) with 1.
    rewrite (Z.mod_small (2 ^ (bits k - 1) - 1 + 1)) by lia.
    replace (2 ^ (bits k - 1) - 1 + 1 + 2 ^ (bits k - 1)) with (2 ^ bits k)
      by lia.
    rewrite Z.mod_same by lia. lia.
  - rewrite (Z.mod_small 0) by lia.
    rewrite (Z.mod_small (2 ^ (bits k - 1) - 1 + 0)) by lia.
    rewrite Z.mod_small by lia. lia.
Qed.

Lemma finish_clamped (k : kind) (nptr off v f : Z) :
  well_formed k -> Z.testbit f 2 = true ->
  value (finish k nptr off v f)
  = (if is_signed k && Z.testbit f 0 then strtoi_min k else strtoi_max k)
  /\ status (finish k nptr off v f) = OutOfRange
  /\ consumed_count (finish k nptr off v f)
     = if Z.testbit f 1 then off - 1 else nptr.
Proof.
  intros H H2. unfold finish, status.
  cbn [value consumed_count errno final_flags].
  autorewrite with flags. rewrite H2. repeat split.
  destruct (is_signed k) eqn:Es; trivial. now apply clamp_value.
Qed.

(** ** Results on a sign and a run of digits *)

Section SignDigits.
Variables (k : kind) (upper neg : bool) (b : Z).
Hypothesis Hk : well_formed k.
Hypothesis Hb : 2 <= b <= 36.

Lemma parse_fits (ds : list Z) :
  Forall (fun d => 0 <= d < b) ds -> ds <> [] ->
  eval_digits b 0 ds <= ucutoff k (sign_flag neg) ->
  summary (strtoi k (sign_string neg ++ render_digits upper ds) b)
  = Some (to_type k (if neg then - eval_digits b 0 ds else eval_digits b 0 ds),
          sign_length neg + Z.of_nat (Datatypes.length ds), Ok).
Proof.
  intros Hds Hne Hfit. pose proof (strtoi_max_ge k Hk) as Hmax.
  rewrite strtoi_sign_digits by trivial. cbv zeta. unfold cutoff, cutlim.
  rewrite (accum_fits k b (ucutoff k (sign_flag neg)) Hk Hb
             (cut_ok_sign k neg Hk) ds Hds) by (trivial; lia).
  cbn [fst snd]. destruct ds as [|d ds']; [congruence|].
  rewrite finish_plain by (destruct neg; reflexivity).
  do 3 f_equal; [|lia].
  destruct neg; cbn [sign_flag].
  - change (Z.testbit (Z.lor FLAG_NEG FLAG_ANY) 0) with true. cbv iota.
    now apply to_type_neg_inner.
  - change (Z.testbit (Z.lor 0 FLAG_ANY) 0) with false. reflexivity.
Qed.

Lemma parse_over (ds : list Z) (d : Z) :
  Forall (fun d => 0 <= d < b) ds -> 0 <= d < b ->
  eval_digits b 0 ds <= strtoi_max k ->
  ucutoff k (sign_flag neg) < eval_digits b 0 (ds ++ [d]) ->
  summary (strtoi k (sign_string neg ++ render_digits upper (ds ++ [d])) b)
  = Some (if is_signed k && neg then strtoi_min k else strtoi_max k,
          sign_length neg + Z.of_nat (Datatypes.length ds) + 1, OutOfRange).
Proof.
  intros Hds Hd Hfit Hover.
  assert (Hall : Forall (fun d => 0 <= d < b) (ds ++ [d]))
    by (apply Forall_app; split; trivial; constructor; trivial).
  assert (Hne : (ds ++ [d])%list <> []) by (now destruct ds).
  rewrite strtoi_sign_digits by trivial. cbv zeta. unfold cutoff, cutlim.
  pose proof (accum_last_over k b (ucutoff k (sign_flag neg)) Hk Hb
                (cut_ok_sign k neg Hk) ds d (sign_flag neg)
                Hds Hd Hfit Hover) as B2.
  set (st := accum k b _ _ (ds ++ [d]) (0, sign_flag neg)) in *.
  pose proof (accum_bits k b (to_type k (ucutoff k (sign_flag neg) / b))
                (ucutoff k (sign_flag neg) mod b) (ds ++ [d]) 0
                0 (sign_flag neg)) as B.
  cbv zeta in B. fold st in B. destruct B as (B1 & _ & B0).
  specialize (B1 Hne). specialize (B0 ltac:(lia) ltac:(lia)).
  destruct (finish_clamped k 0
              (sign_length neg + 1 + Z.of_nat (Datatypes.length (ds ++ [d])))
              (fst st) (snd st) Hk B2) as (V & S & C).
  unfold summary. rewrite V, S, C, B1, B0.
  rewrite length_app. cbn [Datatypes.length].
  do 3 f_equal; [|lia].
  destruct neg; reflexivity.
Qed.
End SignDigits.

(** ** Canonical renderings *)

Lemma render_negative (upper : bool) (b v : Z) :
  v < 0 ->
  render upper b v = (sign_string true ++ render_digits upper (digits b (- v)))%string.
Proof.
  intros H. unfold render. destruct (Z.ltb_spec v 0); [reflexivity | lia].
Qed.

Lemma render_nonnegative (upper : bool) (b v : Z) :
  0 <= v ->
  render upper b v = (sign_string false ++ render_digits upper (digits b v))%string.
Proof.
  intros H. unfold render. destruct (Z.ltb_spec v 0); [lia | reflexivity].
Qed.

Lemma render_parses (k : kind) (upper : bool) (b v : Z) :
  well_formed k -> 2 <= b <= 36 -> strtoi_min k <= v <= strtoi_max k ->
  summary (strtoi k (render upper b v) b)
  = Some (v, Z.of_nat (Datatypes.length (digits b (Z.abs v)))
             + (if v <? 0 then 1 else 0), Ok).
Proof.
  intros Hk Hb Hv. destruct (pow_bits k Hk) as [E L].
  destruct (Z.ltb_spec v 0) as [Hneg|Hpos].
  - rewrite render_negative by trivial.
    destruct (digits_spec b (- v)) as (F & Ev & d & ds & Eq & _); try lia.
    rewrite parse_fits; trivial.
    + rewrite Ev, Z.opp_involutive, to_type_id by trivial.
      rewrite Z.abs_neq by lia. cbn [sign_length]. do 3 f_equal. lia.
    + rewrite Eq. discriminate.
    + rewrite Ev. cbn [sign_flag]. rewrite ucutoff_minus by trivial.
      revert Hv. unfold strtoi_min, strtoi_max. destruct (is_signed k); lia.
  - rewrite render_nonnegative by trivial.
    destruct (digits_spec b v) as (F & Ev & d & ds & Eq & _); try lia.
    rewrite parse_fits; trivial.
    + rewrite Ev, to_type_id by trivial.
      rewrite Z.abs_eq by lia. cbn [sign_length]. do 3 f_equal. lia.
    + rewrite Eq. discriminate.
    + rewrite Ev. cbn [sign_flag]. rewrite ucutoff_plus by trivial. lia.
Qed.

(** One past a boundary: the rendering is that of the quotient by the base
    followed by one more digit, and this last digit overflows. *)
Lemma render_beyond (k : kind) (upper neg : bool) (b m : Z) :
  well_formed k -> 2 <= b <= 36 ->
  m = ucutoff k (sign_flag neg) + 1 ->
  summary (strtoi k (sign_string neg ++ render_digits upper (digits b m)) b)
  = Some (if is_signed k && neg then strtoi_min k else strtoi_max k,
          sign_length neg + Z.of_nat (Datatypes.length (digits b m)),
          OutOfRange).
Proof.
  intros Hk Hb Hm. pose proof (strtoi_max_ge k Hk) as Hmax.
  assert (HU : strtoi_max k <= ucutoff k (sign_flag neg) <= strtoi_max k + 1).
  { destruct neg; cbn [sign_flag].
    - rewrite ucutoff_minus by trivial. destruct (is_signed k); lia.
    - rewrite ucutoff_plus by trivial. lia. }
  destruct (digits_snoc b m) as (ds & Eq & F & Ev); [lia|].
  pose proof (Z.mod_pos_bound m b ltac:(lia)) as MB.
  pose proof (Z.div_mod m b ltac:(lia)) as DM.
  assert (Hq : m / b <= strtoi_max k).
  { apply Z.le_trans with (m / 2).
    - apply Z.div_le_compat_l; lia.
    - apply Z.div_le_upper_bound; lia. }
  rewrite Eq, parse_over; trivial.
  - rewrite length_app. cbn [Datatypes.length]. do 3 f_equal. lia.
  - lia.
  - rewrite eval_digits_app, Ev. simpl. lia.
Qed.

(** ** Every result comes out of [finish] *)

Lemma strtoi_inv (k : kind) (s : string) (ibase : Z) (r : result) :
  strtoi k s ibase = Some r ->
  r = {| value := 0; consumed_count := 0; errno := EINVAL; final_flags := 0 |}
  \/ exists nptr off val flags, r = finish k nptr off val flags.
Proof.
  unfold strtoi, strtoi_mem.
  destruct ((36 <? to_uint k ibase) || (ibase =? 1)).
  - intros [= <-]. now left.
  - destruct (prologue (c_string s) ibase) as [[[[[[f b] n] i] s'] off]|];
      cbn [bind]; [|discriminate].
    destruct (digit_loop k b _ _ s' off i 0 f) as [[[v f'] off']|];
      cbn [bind]; [|discriminate].
    intros [= <-]. right. now exists n, off', v, f'.
Qed.

Lemma status_range_finish (k : kind) (nptr off v f : Z) :
  status (finish k nptr off v f) = OutOfRange -> Z.testbit f 2 = true.
Proof.
  unfold status, finish. cbn [errno final_flags]. autorewrite with flags.
  destruct (Z.testbit f 2); trivial. destruct (Z.testbit f 1); discriminate.
Qed.

Lemma outcome_summary (o : option result) (v n : Z) (st : status_t) :
  summary o = Some (v, n, st) -> outcome o = Some (v, st).
Proof. destruct o; simpl; [intros [= <- _ <-]; trivial | discriminate]. Qed.

(** ** The shape of an input: blanks, an optional sign, the rest *)

Lemma code_inj (c : ascii) (n : nat) :
  (n < 256)%nat -> code c = Z.of_nat n -> c = ascii_of_nat n.
Proof.
  unfold code. intros Hn E. apply Nat2Z.inj in E.
  rewrite <- E. symmetry. apply ascii_nat_embedding.
Qed.

Lemma c_string_cons (c : ascii) (s : string) :
  c_string (String c s) = code c :: c_string s.
Proof. reflexivity. Qed.

Lemma head_code_c_string (s : string) :
  exists tl, c_string s = head_code s :: tl.
Proof. destruct s as [|c s]; [exists [] | exists (c_string s)]; reflexivity. Qed.

Lemma skip_spaces_lead (ws rest : string) (off : Z) :
  all_space ws = true -> ISSPACE (head_code rest) = false ->
  exists tl, c_string rest = head_code rest :: tl
             /\ skip_spaces (c_string (ws ++ rest)) off
                = Some (head_code rest, tl,
                        off + Z.of_nat (String.length ws) + 1).
Proof.
  intros Hws Hr. destruct (head_code_c_string rest) as [tl Etl].
  exists tl. split; trivial. revert off.
  induction ws as [|w ws IH]; intros off.
  - cbn [String.append String.length]. rewrite Etl. cbn [skip_spaces].
    rewrite Hr. do 3 f_equal. lia.
  - cbn [all_space] in Hws. apply andb_true_iff in Hws. destruct Hws as [Hw Hws].
    cbn [String.append]. rewrite c_string_cons. cbn [skip_spaces].
    rewrite Hw, (IH Hws). do 3 f_equal. cbn [String.length]. lia.
Qed.

(** Blanks and sign only move the starting offset and set [FLAG_NEG]. *)
Lemma prologue_lead (ws : string) (sg : sign_t) (body : string) (ibase : Z) :
  all_space ws = true -> (sg = NoSign -> plain_start body = true) ->
  prologue (c_string (ws ++ sign_text sg ++ body)) ibase
  = ('(i, s) <- next (c_string body) ;;
     '(base, nptr, i, s, off) <-
        detect_base (to_uchar ibase) i s (lead_length ws sg + 1) ;;
     Some (sign_flags sg, base, nptr, i, s, off)).
Proof.
  intros Hws Hplain. unfold prologue, lead_length.
  destruct sg; cbn [sign_text sign_flags].
  - specialize (Hplain eq_refl). unfold plain_start in Hplain.
    apply andb_true_iff in Hplain. destruct Hplain as [Hplain H43].
    apply andb_true_iff in Hplain. destruct Hplain as [Hsp H45].
    apply negb_true_iff in Hsp, H45, H43.
    cbn [String.append].
    destruct (skip_spaces_lead ws body 0 Hws Hsp) as (tl & Etl & ->).
    rewrite Etl. cbn [bind next]. unfold parse_sign. rewrite H45, H43.
    cbn [bind String.length]. do 3 f_equal. lia.
  - destruct (skip_spaces_lead ws (String "+" body) 0 Hws eq_refl)
      as (tl & Etl & E).
    change ("+" ++ body)%string with (String "+" body). rewrite E.
    rewrite c_string_cons in Etl. injection Etl as <-.
    cbn [bind head_code]. unfold parse_sign.
    change (code "+" =? 45) with false. change (code "+" =? 43) with true.
    cbv iota. destruct (next (c_string body)) as [[i s]|]; reflexivity.
  - destruct (skip_spaces_lead ws (String "-" body) 0 Hws eq_refl)
      as (tl & Etl & E).
    change ("-" ++ body)%string with (String "-" body). rewrite E.
    rewrite c_string_cons in Etl. injection Etl as <-.
    cbn [bind head_code]. unfold parse_sign.
    change (code "-" =? 45) with true.
    cbv iota. destruct (next (c_string body)) as [[i s]|]; reflexivity.
Qed.

Lemma strtoi_lead (k : kind) (ws : string) (sg : sign_t) (body : string)
    (ibase : Z) :
  well_formed k -> valid_base ibase ->
  all_space ws = true -> (sg = NoSign -> plain_start body = true) ->
  strtoi k (ws ++ sign_text sg ++ body) ibase
  = parse_body k (sign_flags sg) ibase body (lead_length ws sg).
Proof.
  intros Hk Hb Hws Hplain. unfold strtoi, strtoi_mem, parse_body.
  destruct (valid_base_accepted k ibase Hk Hb) as [-> _].
  rewrite prologue_lead by trivial.
  destruct (next (c_string body)) as [[i s]|]; cbn [bind]; trivial.
  destruct (detect_base (to_uchar ibase) i s (lead_length ws sg + 1))
    as [[[[[b n] i'] s'] off]|]; reflexivity.
Qed.

(** Every string has that shape. *)
Lemma shape_exists (s : string) :
  exists ws sg body,
    s = (ws ++ sign_text sg ++ body)%string
    /\ all_space ws = true /\ (sg = NoSign -> plain_start body = true).
Proof.
  induction s as [|c s IH].
  - exists EmptyString, NoSign, EmptyString. repeat split.
  - destruct (ISSPACE (code c)) eqn:Hsp.
    + destruct IH as (ws & sg & body & -> & Hws & Hp).
      exists (String c ws), sg, body. repeat split; trivial.
      cbn [all_space]. now rewrite Hsp, Hws.
    + destruct (Z.eqb_spec (code c) 45) as [E45|N45].
      * exists EmptyString, Minus, s. repeat split; try discriminate.
        now rewrite (code_inj c 45 ltac:(lia) E45).
      * destruct (Z.eqb_spec (code c) 43) as [E43|N43].
        -- exists EmptyString, Plus, s. repeat split; try discriminate.
           now rewrite (code_inj c 43 ltac:(lia) E43).
        -- exists EmptyString, NoSign, (String c s). repeat split.
           intros _. unfold plain_start. cbn [head_code]. rewrite Hsp.
           destruct (Z.eqb_spec (code c) 45), (Z.eqb_spec (code c) 43);
             trivial; contradiction.
Qed.

(** ** What the body of an input parses to *)

Lemma c_string_head_rest (s : string) :
  c_string s = head_code s :: rest_codes s.
Proof. destruct s; reflexivity. Qed.

Lemma TOLOW_x (c : Z) :
  0 <= c < 256 -> (TOLOW c =? 120) = ((c =? 120) || (c =? 88)).
Proof.
  intros Hc. apply eqb_prop. revert c Hc.
  apply (below_spec 256 TOLOW_row). vm_compute. reflexivity.
Qed.

Lemma head_code_range (s : string) : 0 <= head_code s < 256.
Proof. destruct s; simpl; [lia | apply code_range]. Qed.

Lemma detect_base_body (ibase : Z) (body : string) (off : Z) :
  detect_base ibase (head_code body) (rest_codes body) off
  = Some (chosen_base ibase body,
          if prefix_taken ibase body then off else 0,
          head_code (number_part ibase body),
          rest_codes (number_part ibase body),
          if prefix_taken ibase body then off + 2 else off).
Proof.
  unfold detect_base, chosen_base, number_part, prefix_taken.
  destruct body as [|c0 body]; [simpl; destruct (ibase =? 0); reflexivity|].
  cbn [head_code rest_codes hex_prefixed].
  destruct (Z.eqb_spec (code c0) 48) as [E0|N0].
  - rewrite c_string_head_rest. cbn [peek nth_error bind].
    rewrite TOLOW_x by apply head_code_range.
    destruct body as [|c1 body].
    + simpl. destruct (ibase =? 0); reflexivity.
    + cbn [head_code andb].
      destruct ((code c1 =? 120) || (code c1 =? 88)); cbn [andb].
      * destruct ((ibase =? 0) || (ibase =? 16)) eqn:Eb.
        -- cbn [rest_codes string_tail]. rewrite c_string_head_rest.
           reflexivity.
        -- apply orb_false_iff in Eb. destruct Eb as [-> _]. reflexivity.
      * destruct (ibase =? 0); reflexivity.
  - destruct body; cbn [andb]; destruct (ibase =? 0); reflexivity.
Qed.

Lemma chosen_base_range (ibase : Z) (body : string) :
  valid_base ibase -> 2 <= chosen_base ibase body <= 36.
Proof.
  intros Hb. unfold chosen_base.
  destruct (prefix_taken ibase body); [lia|].
  destruct (Z.eqb_spec ibase 0).
  - destruct (head_code body =? 48); lia.
  - destruct Hb; lia.
Qed.

(** The loop reads the whole run, whatever the flags say, and stops at the
    first character after it. *)
Lemma digit_loop_string k base co cl (s : string) :
  base <= 208 ->
  forall off val flags,
    digit_loop k base co cl (rest_codes s) off (head_code s) val flags
    = let st := accum k base co cl (run_digits base s) (val, flags) in
      Some (fst st, snd st,
            off + Z.of_nat (Datatypes.length (run_digits base s))).
Proof.
  intros Hb. induction s as [|c s IH]; intros off val flags.
  - cbn [rest_codes head_code run_digits accum fold_left fst snd Datatypes.length].
    rewrite digit_loop_stop by (rewrite digit_of_NUL; trivial).
    do 2 f_equal. lia.
  - cbn [rest_codes head_code run_digits].
    destruct (Z.ltb_spec (digit_of (code c)) base) as [Hd|Hd].
    + rewrite c_string_head_rest, digit_loop_cons by trivial. cbv zeta.
      rewrite IH. cbv zeta. cbn [accum fold_left Datatypes.length].
      destruct (step k base co cl (val, flags) (digit_of (code c))) as [v1 f1].
      cbn [fst snd]. unfold accum. do 2 f_equal. lia.
    + rewrite digit_loop_stop by trivial.
      cbn [accum fold_left fst snd Datatypes.length]. do 2 f_equal. lia.
Qed.

Lemma parse_body_spec (k : kind) (flags ibase : Z) (body : string) (off0 : Z) :
  well_formed k -> valid_base ibase ->
  parse_body k flags ibase body off0
  = let base := chosen_base ibase body in
    let ds := run_digits base (number_part ibase body) in
    let st := accum k base (cutoff k flags base) (cutlim k flags base)
                ds (0, flags) in
    Some (finish k
            (if prefix_taken ibase body then off0 + 1 else 0)
            ((if prefix_taken ibase body then off0 + 3 else off0 + 1)
             + Z.of_nat (Datatypes.length ds))
            (fst st) (snd st)).
Proof.
  intros Hk Hb. pose proof (chosen_base_range ibase body Hb) as Hcb.
  destruct (valid_base_accepted k ibase Hk Hb) as [_ Eu].
  unfold parse_body. rewrite Eu, c_string_head_rest. cbn [next bind].
  rewrite detect_base_body. cbn [bind].
  rewrite digit_loop_string by lia. cbv zeta. cbn [bind].
  destruct (prefix_taken ibase body); do 2 f_equal; lia.
Qed.

Lemma strtoi_shape (k : kind) (ws : string) (sg : sign_t) (body : string)
    (ibase : Z) :
  well_formed k -> valid_base ibase ->
  all_space ws = true -> (sg = NoSign -> plain_start body = true) ->
  strtoi k (ws ++ sign_text sg ++ body) ibase
  = let base := chosen_base ibase body in
    let ds := run_digits base (number_part ibase body) in
    let st := accum k base (cutoff k (sign_flags sg) base)
                (cutlim k (sign_flags sg) base) ds (0, sign_flags sg) in
    Some (finish k
            (if prefix_taken ibase body then lead_length ws sg + 1 else 0)
            ((if prefix_taken ibase body
              then lead_length ws sg + 3 else lead_length ws sg + 1)
             + Z.of_nat (Datatypes.length ds))
            (fst st) (snd st)).
Proof.
  intros Hk Hb Hws Hp. rewrite strtoi_lead by trivial.
  now apply parse_body_spec.
Qed.

Lemma sign_flags_bits (sg : sign_t) :
  Z.testbit (sign_flags sg) 1 = false /\ Z.testbit (sign_flags sg) 2 = false.
Proof. destruct sg; split; reflexivity. Qed.

(** [FLAG_ANY] ends up set exactly when the run of digits is not empty. *)
Lemma accum_any k base co cl (ds : list Z) (sg : sign_t) :
  Z.testbit (snd (accum k base co cl ds (0, sign_flags sg))) 1
  = match ds with [] => false | _ => true end.
Proof.
  destruct ds as [|d ds].
  - apply sign_flags_bits.
  - pose proof (accum_bits k base co cl (d :: ds) 0 0 (sign_flags sg)) as B.
    cbv zeta in B. destruct B as (B1 & _). apply B1. discriminate.
Qed.

Lemma outcome_finish (k : kind) (n n' o o' v f : Z) :
  outcome (Some (finish k n o v f)) = outcome (Some (finish k n' o' v f)).
Proof. reflexivity. Qed.

Lemma append_assoc (s1 s2 s3 : string) :
  ((s1 ++ s2) ++ s3 = s1 ++ (s2 ++ s3))%string.
Proof. induction s1 as [|c s1 IH]; simpl; congruence. Qed.

Lemma all_space_app (s1 s2 : string) :
  all_space s1 = true -> all_space s2 = true -> all_space (s1 ++ s2) = true.
Proof.
  induction s1 as [|c s1 IH]; simpl; trivial.
  intros H1 H2. apply andb_true_iff in H1. destruct H1 as [-> H1]. auto.
Qed.

Lemma length_append (s1 s2 : string) :
  String.length (s1 ++ s2) = (String.length s1 + String.length s2)%nat.
Proof. induction s1 as [|c s1 IH]; simpl; congruence. Qed.

Lemma finish_no_digits (k : kind) (nptr off : Z) (sg : sign_t) :
  well_formed k ->
  value (finish k nptr off 0 (sign_flags sg)) = 0
  /\ consumed_count (finish k nptr off 0 (sign_flags sg)) = nptr
  /\ status (finish k nptr off 0 (sign_flags sg)) = NoDigitsConsumed.
Proof.
  intros Hk. pose proof (strtoi_max_ge k Hk).
  unfold finish, status. cbn [value consumed_count errno final_flags].
  autorewrite with flags.
  destruct sg; cbn [sign_flags];
    [ change (Z.testbit 0 2) with false; change (Z.testbit 0 1) with false;
      change (Z.testbit 0 0) with false
    | change (Z.testbit 0 2) with false; change (Z.testbit 0 1) with false;
      change (Z.testbit 0 0) with false
    | change (Z.testbit FLAG_NEG 2) with false;
      change (Z.testbit FLAG_NEG 1) with false;
      change (Z.testbit FLAG_NEG 0) with true ];
    cbv iota; repeat split.
  change (- 0) with 0. apply to_type_nonneg; trivial; lia.
Qed.

(** With the loop's own classification the roll-back works as described:
    when the character after ["0x"] is not taken for a digit of base 16,
    only the ['0'] is reported as consumed. *)
Lemma hex_prefix_rollback (k : kind) (ws : string) (sg : sign_t)
    (c0 x : ascii) (rest : string) (ibase : Z) :
  well_formed k -> ibase = 0 \/ ibase = 16 ->
  all_space ws = true ->
  hex_prefixed (String c0 (String x rest)) = true ->
  16 <= digit_of (head_code rest) ->
  summary (strtoi k (ws ++ sign_text sg ++ String c0 (String x rest)) ibase)
  = Some (0, lead_length ws sg + 1, NoDigitsConsumed).
Proof.
  intros Hk Hb Hws Hx Hstop.
  assert (Hvb : valid_base ibase) by (destruct Hb; [now left | right; lia]).
  assert (Hp : sg = NoSign -> plain_start (String c0 (String x rest)) = true).
  { intros _. cbn [hex_prefixed] in Hx. apply andb_true_iff in Hx.
    destruct Hx as [E0 _]. apply Z.eqb_eq in E0.
    unfold plain_start. cbn [head_code]. now rewrite E0. }
  assert (Ept : prefix_taken ibase (String c0 (String x rest)) = true).
  { unfold prefix_taken. rewrite Hx. destruct Hb as [-> | ->]; reflexivity. }
  rewrite strtoi_shape by trivial. cbv zeta.
  unfold chosen_base, number_part. rewrite Ept. cbn [string_tail].
  assert (Er : run_digits 16 rest = []).
  { destruct rest as [|c rest]; trivial. cbn [run_digits head_code] in *.
    destruct (Z.ltb_spec (digit_of (code c)) 16); trivial. lia. }
  rewrite Er. cbn [accum fold_left fst snd Datatypes.length].
  unfold summary.
  destruct (finish_no_digits k (lead_length ws sg + 1)
              (lead_length ws sg + 3 + Z.of_nat 0) sg Hk) as (-> & -> & ->).
  reflexivity.
Qed.

(** Whether or not an overflow was flagged, the loop consumes the whole run
    of characters it takes for digits: the consumed count is the offset
    just after that run. *)
Lemma consumed_count_covers_run (k : kind) (ws : string) (sg : sign_t)
    (body : string) (ibase : Z) :
  well_formed k -> valid_base ibase ->
  all_space ws = true -> (sg = NoSign -> plain_start body = true) ->
  let ds := run_digits (chosen_base ibase body) (number_part ibase body) in
  exists r,
    strtoi k (ws ++ sign_text sg ++ body) ibase = Some r
    /\ has_flag (final_flags r) FLAG_ANY
       = match ds with [] => false | _ => true end
    /\ (ds <> [] ->
        consumed_count r
        = lead_length ws sg + (if prefix_taken ibase body then 2 else 0)
          + Z.of_nat (Datatypes.length ds)).
Proof.
  intros Hk Hb Hws Hp ds. rewrite strtoi_shape by trivial. cbv zeta.
  fold ds. eexists. split; [reflexivity|].
  unfold finish. cbn [final_flags consumed_count].
  rewrite has_flag_ANY, accum_any. split; trivial.
  intros Hne. destruct ds; [congruence|].
  destruct (prefix_taken ibase body); lia.
Qed.

Lemma effective_base_shape (ws : string) (sg : sign_t) (body : string)
    (ibase : Z) :
  0 <= ibase < 256 ->
  all_space ws = true -> (sg = NoSign -> plain_start body = true) ->
  effective_base (ws ++ sign_text sg ++ body) ibase
  = Some (chosen_base ibase body).
Proof.
  intros Hb Hws Hp. unfold effective_base. rewrite prologue_lead by trivial.
  rewrite c_string_head_rest. cbn [next bind].
  unfold to_uchar. rewrite Z.mod_small by trivial.
  rewrite detect_base_body. reflexivity.
Qed.

(** ** The base check and totality *)

Lemma base_check_fails (k : kind) (ibase : Z) :
  well_formed k ->
  - 2 ^ (int_bits k - 1) <= ibase < 2 ^ (int_bits k - 1) ->
  ibase <> 0 -> ~ 2 <= ibase <= 36 ->
  (36 <? to_uint k ibase) || (ibase =? 1) = true.
Proof.
  intros [_ Hi] Hr H0 Hb.
  assert (E : 2 ^ int_bits k = 2 * 2 ^ (int_bits k - 1)).
  { replace (int_bits k) with (Z.succ (int_bits k - 1)) at 1 by lia.
    apply Z.pow_succ_r. lia. }
  assert (L : 32768 <= 2 ^ (int_bits k - 1))
    by (change 32768 with (2 ^ 15); apply Z.pow_le_mono_r; lia).
  apply orb_true_iff. destruct (Z.eq_dec ibase 1) as [->|N1]; [now right|].
  left. apply Z.ltb_lt. unfold to_uint.
  destruct (Z_lt_le_dec ibase 0).
  - replace ibase with (ibase + 2 ^ int_bits k + (-1) * 2 ^ int_bits k)
      by ring.
    rewrite Z_mod_plus_full, Z.mod_small; lia.
  - rewrite Z.mod_small; lia.
Qed.

(** Every call returns: the loops end at the terminating NUL at the latest
    and no byte outside the string is read. *)
Lemma strtoi_total (k : kind) (s : string) (ibase : Z) :
  well_formed k ->
  - 2 ^ (int_bits k - 1) <= ibase < 2 ^ (int_bits k - 1) ->
  exists r, strtoi k s ibase = Some r.
Proof.
  intros Hk Hr.
  destruct (Z.eq_dec ibase 0) as [E0|N0];
    [|destruct (Z_le_dec 2 ibase) as [H2|H2];
      [destruct (Z_le_dec ibase 36) as [H36|H36]|]].
  1, 2: destruct (shape_exists s) as (ws & sg & body & -> & Hws & Hp);
    rewrite strtoi_shape by (trivial; (now left) || (right; lia));
    cbv zeta; eexists; reflexivity.
  all: unfold strtoi, strtoi_mem;
    rewrite base_check_fails by (trivial; lia); eexists; reflexivity.
Qed.

(** Hexadecimal digits apart, the only characters the loop takes for
    digits of base 16 are [: ; < = > ?]. *)
Lemma non_hex_stops (c : Z) :
  0 <= c < 256 -> is_hex_digit c = false -> ~ 58 <= c <= 63 ->
  16 <= digit_of c.
Proof.
  intros Hc Hh Hn. pose proof (digit_of_table c Hc) as T.
  unfold digit_of_row, is_hex_digit, between_9_and_A in *.
  destruct (spec_digit_value c) as [d|]; [lia|].
  destruct (Z.leb_spec 58 c), (Z.leb_spec c 64); simpl in T; lia.
Qed.

(** The roll-back of the ["0x"] prefix in the words of the specification:
    when what follows the prefix is no hexadecimal digit, and is none of
    [: ; < = > ?] either, only the ['0'] is reported as consumed. *)
Lemma hex_prefix_rollback_non_hex (k : kind) (ws : string) (sg : sign_t)
    (c0 x : ascii) (rest : string) (ibase : Z) :
  well_formed k -> ibase = 0 \/ ibase = 16 ->
  all_space ws = true ->
  hex_prefixed (String c0 (String x rest)) = true ->
  is_hex_digit (head_code rest) = false -> ~ 58 <= head_code rest <= 63 ->
  summary (strtoi k (ws ++ sign_text sg ++ String c0 (String x rest)) ibase)
  = Some (0, lead_length ws sg + 1, NoDigitsConsumed).
Proof.
  intros Hk Hb Hws Hx Hh Hn. apply hex_prefix_rollback; trivial.
  apply non_hex_stops; trivial. apply head_code_range.
Qed.

(** A limit of the cut-off strategy on signed kinds.  The accumulator has
    the signed result type; once a negative number reaches the magnitude
    [2 ^ (bits - 1)] exactly, it has wrapped to the minimum, the comparison
    with [cutoff] no longer sees it, and further digits raise no overflow.
    None of the statements below reaches this case: their inputs end at
    that magnitude or overflow in the very round that passes the bound. *)
Example overflow_missed_after_minimum :
  summary (strtoi kind_long "-2147483648" 10) = Some (-2147483648, 11, Ok)
  /\ summary (strtoi kind_long "-21474836480" 10) = Some (0, 12, Ok).
Proof. split; reflexivity. Qed.

(** What a call stores and flags, in terms of the run of digits. *)
Lemma run_stop (k : kind) (ws : string) (sg : sign_t) (body : string)
    (ibase : Z) :
  well_formed k -> valid_base ibase ->
  all_space ws = true -> (sg = NoSign -> plain_start body = true) ->
  let ds := run_digits (chosen_base ibase body) (number_part ibase body) in
  exists r,
    strtoi k (ws ++ sign_text sg ++ body) ibase = Some r
    /\ consumed_count r = stop_offset ws sg body ibase
    /\ has_flag (final_flags r) FLAG_ANY
       = match ds with [] => false | _ => true end
    /\ errno r <> EINVAL
    /\ (ds = [] -> value r = 0 /\ errno r = ENONE).
Proof.
  intros Hk Hb Hws Hp ds. rewrite strtoi_shape by trivial. cbv zeta.
  fold ds. eexists. split; [reflexivity|].
  unfold stop_offset. fold ds.
  split; [|split; [|split]].
  - unfold finish at 1. cbn [consumed_count].
    rewrite has_flag_ANY, accum_any.
    destruct ds; [reflexivity|]. destruct (prefix_taken ibase body); lia.
  - unfold finish. cbn [final_flags]. now rewrite has_flag_ANY, accum_any.
  - unfold finish. cbn [errno].
    destruct (has_flag _ FLAG_OFLOW); discriminate.
  - intros Eds. rewrite Eds. cbn [accum fold_left fst snd Datatypes.length].
    destruct (finish_no_digits k
                (if prefix_taken ibase body then lead_length ws sg + 1 else 0)
                ((if prefix_taken ibase body
                  then lead_length ws sg + 3 else lead_length ws sg + 1)
                 + Z.of_nat 0) sg Hk) as (V & _ & S).
    split; [exact V|]. unfold status in S.
    destruct (errno (finish k _ _ 0 (sign_flags sg))); trivial; discriminate.
Qed.

(** * The claims *)

(** C1.  For every kind, every explicit base [b] in [2, 36] and every [v]
    the kind can represent, parsing the canonical rendering of [v] in base
    [b] (digits in either letter case, no leading zeros beyond a single
    ['0'], ['-'] first when [v] is negative) gives status [Ok], the value
    [v], and a consumed count equal to the number of digits rendered plus
    one for a rendered sign, which is the length of the rendering. *)
Theorem canonical_rendering_round_trip (k : kind) (upper : bool) (b v : Z) :
  well_formed k -> 2 <= b <= 36 -> strtoi_min k <= v <= strtoi_max k ->
  let ds := digits b (Z.abs v) in
  let n := Z.of_nat (Datatypes.length ds) + (if v <? 0 then 1 else 0) in
  summary (strtoi k (render upper b v) b) = Some (v, n, Ok)
  /\ Z.of_nat (String.length (render upper b v)) = n
  /\ Forall (fun d => 0 <= d < b) ds
  /\ eval_digits b 0 ds = Z.abs v
  /\ (forall d ds', ds = d :: ds' -> d = 0 -> v = 0 /\ ds' = []).
Proof.
  intros Hk Hb Hv ds n.
  destruct (digits_spec b (Z.abs v)) as (F & E & d0 & ds0 & Eq & Hz);
    [lia | lia |].
  split; [exact (render_parses k upper b v Hk Hb Hv)|].
  split; [|split; [exact F|split; [exact E|]]].
  - unfold n, ds, render. destruct (Z.ltb_spec v 0).
    + rewrite Z.abs_neq by lia. cbn [String.length].
      rewrite length_render_digits. lia.
    + rewrite Z.abs_eq by lia. rewrite length_render_digits. lia.
  - intros d ds' Eds Hd. unfold ds in Eds. rewrite Eq in Eds.
    injection Eds as -> ->. destruct (Hz Hd) as [Habs ->]. split; trivial. lia.
Qed.

Lemma canonical_rendering_round_trip_witness :
  well_formed kind_long /\ 2 <= 7 <= 36
  /\ strtoi_min kind_long <= -2147483648 <= strtoi_max kind_long
  /\ render false 7 (-2147483648) = "-104134211162"%string
  /\ summary (strtoi kind_long "-104134211162" 7)
     = Some (-2147483648, 12 + 1, Ok).
Proof.
  assert (Hk : well_formed kind_long) by (unfold well_formed; simpl; lia).
  assert (Hv : strtoi_min kind_long <= -2147483648 <= strtoi_max kind_long)
    by (unfold strtoi_min, strtoi_max; simpl; lia).
  split; [exact Hk|]. split; [lia|]. split; [exact Hv|].
  split; [reflexivity|].
  exact (proj1 (canonical_rendering_round_trip kind_long false 7 (-2147483648)
                  Hk ltac:(lia) Hv)).
Defined.

(** C2 as stated fails for the unsigned kinds: one below the minimum is
    [-1], whose rendering parses to [Ok] with the maximum as value, not to
    [OutOfRange] with the value clamped to the minimum [0]. *)
Lemma unsigned_minus_one_not_clamped :
  strtoi_min kind_ulong - 1 = -1
  /\ render false 10 (-1) = "-1"%string
  /\ outcome (strtoi kind_ulong "-1" 10) = Some (4294967295, Ok)
  /\ outcome (strtoi kind_ulong "-1" 10)
     <> Some (strtoi_min kind_ulong, OutOfRange).
Proof. repeat split. discriminate. Qed.

(** C2, amended.  Whenever the status is [OutOfRange] the value is the
    kind's maximum, or its minimum when the kind is signed and the sign read
    was negative.  The decimal renderings of the maximum and of the minimum
    parse to [Ok] with those values; the rendering of the maximum plus one
    parses to [OutOfRange] with the maximum; for a signed kind the rendering
    of the minimum minus one parses to [OutOfRange] with the minimum; for an
    unsigned kind the rendering of minus one parses to [Ok] with the
    maximum. *)
Theorem out_of_range_clamps (k : kind) (upper : bool) :
  well_formed k ->
  (forall s ibase r,
      strtoi k s ibase = Some r -> status r = OutOfRange ->
      value r = if is_signed k && has_flag (final_flags r) FLAG_NEG
                then strtoi_min k else strtoi_max k)
  /\ outcome (strtoi k (render upper 10 (strtoi_max k)) 10)
     = Some (strtoi_max k, Ok)
  /\ outcome (strtoi k (render upper 10 (strtoi_min k)) 10)
     = Some (strtoi_min k, Ok)
  /\ outcome (strtoi k (render upper 10 (strtoi_max k + 1)) 10)
     = Some (strtoi_max k, OutOfRange)
  /\ (is_signed k = true ->
      outcome (strtoi k (render upper 10 (strtoi_min k - 1)) 10)
      = Some (strtoi_min k, OutOfRange))
  /\ (is_signed k = false ->
      outcome (strtoi k (render upper 10 (strtoi_min k - 1)) 10)
      = Some (strtoi_max k, Ok)).
Proof.
  intros Hk. destruct (pow_bits k Hk) as [E L].
  pose proof (strtoi_max_ge k Hk) as Hmax.
  assert (Hmin : strtoi_min k <= 0)
    by (unfold strtoi_min; destruct (is_signed k); lia).
  repeat apply conj.
  - intros s ibase r Hr Hst. destruct (strtoi_inv k s ibase r Hr) as
      [-> | (nptr & off & v & f & ->)]; [discriminate|].
    apply status_range_finish in Hst.
    destruct (finish_clamped k nptr off v f Hk Hst) as (V & _).
    rewrite V. unfold finish. cbn [final_flags]. now rewrite has_flag_NEG.
  - eapply outcome_summary, render_parses; trivial; lia.
  - eapply outcome_summary, render_parses; trivial; lia.
  - rewrite render_nonnegative by lia.
    eapply outcome_summary. rewrite (render_beyond k upper false); trivial.
    + now rewrite andb_false_r.
    + lia.
    + cbn [sign_flag]. now rewrite ucutoff_plus.
  - intros Es. rewrite render_negative by lia.
    eapply outcome_summary. rewrite (render_beyond k upper true); trivial.
    + now rewrite Es.
    + lia.
    + cbn [sign_flag]. rewrite ucutoff_minus, Es by trivial.
      unfold strtoi_min, strtoi_max. rewrite Es. lia.
  - intros Es. assert (E0 : strtoi_min k = 0)
      by (unfold strtoi_min; now rewrite Es).
    rewrite E0. change (render upper 10 (0 - 1))
      with (sign_string true ++ render_digits upper [1])%string.
    eapply outcome_summary. rewrite parse_fits; trivial.
    + do 3 f_equal. unfold to_type, strtoi_max. rewrite Es.
      change (- eval_digits 10 0 [1]) with (-1).
      replace (-1) with (2 ^ bits k - 1 + (-1) * 2 ^ bits k) by ring.
      rewrite Z_mod_plus_full. apply Z.mod_small. lia.
    + lia.
    + repeat constructor; lia.
    + discriminate.
    + cbn [sign_flag]. rewrite ucutoff_minus, Es by trivial.
      change (eval_digits 10 0 [1]) with 1. lia.
Qed.

Lemma out_of_range_clamps_witness :
  well_formed kind_int16 /\ well_formed kind_ulong_cutoff
  /\ (exists r, strtoi kind_int16 "-99999" 10 = Some r
                /\ status r = OutOfRange /\ value r = -32768)
  /\ outcome (strtoi kind_int16 "32767" 10) = Some (32767, Ok)
  /\ outcome (strtoi kind_int16 "-32768" 10) = Some (-32768, Ok)
  /\ outcome (strtoi kind_int16 "32768" 10) = Some (32767, OutOfRange)
  /\ outcome (strtoi kind_int16 "-32769" 10) = Some (-32768, OutOfRange)
  /\ outcome (strtoi kind_ulong_cutoff "4294967296" 10)
     = Some (4294967295, OutOfRange)
  /\ outcome (strtoi kind_ulong_cutoff "-1" 10) = Some (4294967295, Ok).
Proof.
  assert (Hk : well_formed kind_int16) by (unfold well_formed; simpl; lia).
  assert (Hu : well_formed kind_ulong_cutoff)
    by (unfold well_formed; simpl; lia).
  destruct (out_of_range_clamps kind_int16 false Hk)
    as (Hany & Hmax & Hmin & Hup & Hdown & _).
  destruct (out_of_range_clamps kind_ulong_cutoff false Hu)
    as (_ & _ & _ & Hup' & _ & Hdown').
  split; [exact Hk|]. split; [exact Hu|].
  split; [eexists; split; [reflexivity|]; split; [reflexivity|];
          exact (Hany "-99999"%string 10 _ eq_refl eq_refl)|].
  split; [exact Hmax|]. split; [exact Hmin|]. split; [exact Hup|].
  split; [exact (Hdown eq_refl)|].
  split; [exact Hup' | exact (Hdown' eq_refl)].
Defined.

(** C3.  The claim fails on the code: the loop's classification maps the
    characters [: ; < = > ? @] (codes 58 to 64) to 10 to 16, so [':'] counts
    as the digit 10 of every base above 10, and ["1:"] in base 16 parses to
    26 with both characters consumed.  Every other character that is not a
    digit or a letter, NUL included, is mapped to 36 or more. *)
Theorem colon_classified_as_digit :
  digit_of (code ":") = 10
  /\ spec_digit_value (code ":") = None
  /\ summary (strtoi kind_long "1:" 16) = Some (26, 2, Ok)
  /\ (forall c, 0 <= c < 256 -> spec_digit_value c = None ->
                between_9_and_A c = false -> 36 <= digit_of c)
  /\ (forall c, between_9_and_A c = true -> digit_of c = c - 48).
Proof.
  repeat split.
  - apply digit_of_other.
  - apply digit_of_between.
Qed.

(** C4.  A base argument (an [int]) that is neither 0 nor in [2, 36] makes
    the call return 0 with [errno = EINVAL] and [endptr] at the start of the
    input, whatever the input is; and it does so even on an object with no
    byte to read, so no character is inspected. *)
Theorem invalid_base_rejected (k : kind) (ibase : Z) :
  well_formed k ->
  - 2 ^ (int_bits k - 1) <= ibase < 2 ^ (int_bits k - 1) ->
  ibase <> 0 -> ~ 2 <= ibase <= 36 ->
  (forall s, summary (strtoi k s ibase) = Some (0, 0, InvalidConfiguration))
  /\ (forall mem, summary (strtoi_mem k mem ibase)
                  = Some (0, 0, InvalidConfiguration)).
Proof.
  intros Hk Hr H0 Hb.
  pose proof (base_check_fails k ibase Hk Hr H0 Hb) as C.
  assert (M : forall mem, summary (strtoi_mem k mem ibase)
                          = Some (0, 0, InvalidConfiguration))
    by (intros mem; unfold strtoi_mem; rewrite C; reflexivity).
  split; [intros s; apply M | exact M].
Qed.

Lemma invalid_base_rejected_witness :
  well_formed kind_long
  /\ - 2 ^ (int_bits kind_long - 1) <= -8 < 2 ^ (int_bits kind_long - 1)
  /\ summary (strtoi kind_long "42" (-8)) = Some (0, 0, InvalidConfiguration)
  /\ summary (strtoi_mem kind_long [] (-8)) = Some (0, 0, InvalidConfiguration).
Proof.
  assert (Hk : well_formed kind_long) by (unfold well_formed; simpl; lia).
  assert (Hr : - 2 ^ (int_bits kind_long - 1) <= -8
               < 2 ^ (int_bits kind_long - 1)) by (simpl; lia).
  destruct (invalid_base_rejected kind_long (-8) Hk Hr ltac:(lia) ltac:(lia))
    as [Hs Hm].
  split; [exact Hk|]. split; [exact Hr|]. split; [apply Hs | apply Hm].
Defined.

(** C5.  The claim fails on the code when the character after ["0x"] is one
    of [: ; < = > ?], which are no hexadecimal digits but which the loop
    takes for the digits 10 to 15: ["0x:"] is consumed whole, with value 10,
    where the claim has only the ['0'] consumed (same defect as in C3).
    After every other character that is no hexadecimal digit, the end of
    the string included, only the ['0'] is reported as consumed. *)
Theorem hex_prefix_colon_consumed :
  is_hex_digit (code ":") = false
  /\ summary (strtoi kind_long "0x:" 16) = Some (10, 3, Ok)
  /\ summary (strtoi kind_long "0x:" 0) = Some (10, 3, Ok)
  /\ summary (strtoi kind_long "0x:" 16) <> Some (0, 1, NoDigitsConsumed)
  /\ (forall k ws sg c0 x rest ibase,
        well_formed k -> ibase = 0 \/ ibase = 16 -> all_space ws = true ->
        hex_prefixed (String c0 (String x rest)) = true ->
        is_hex_digit (head_code rest) = false ->
        ~ 58 <= head_code rest <= 63 ->
        summary (strtoi k (ws ++ sign_text sg ++ String c0 (String x rest))
                   ibase)
        = Some (0, lead_length ws sg + 1, NoDigitsConsumed)).
Proof.
  repeat apply conj; try reflexivity.
  - discriminate.
  - intros k ws sg c0 x rest ibase. apply hex_prefix_rollback_non_hex.
Qed.

(** C6.  The claim fails on the code for the same reason as C3: in ["1:"]
    with base 16 the last valid digit is the ['1'] at offset 0, yet the
    consumed count is 2, the [':'] having been read as the digit 10.  That
    overflow does not stop the scan is true: ["99999999999:"] in base 16 on
    a 32-bit kind overflows and is consumed whole, [':'] included; and for
    every input the consumed count is the offset just after the run of
    characters the loop takes for digits, whatever the overflow flag. *)
Theorem colon_extends_digit_run :
  spec_digit_value (code ":") = None
  /\ summary (strtoi kind_long "1:" 16) = Some (26, 2, Ok)
  /\ summary (strtoi kind_ulong "1:" 11) = Some (21, 2, Ok)
  /\ summary (strtoi kind_long "99999999999:" 16)
     = Some (2147483647, 12, OutOfRange)
  /\ (forall k ws sg body ibase,
        well_formed k -> valid_base ibase ->
        all_space ws = true -> (sg = NoSign -> plain_start body = true) ->
        let ds := run_digits (chosen_base ibase body)
                    (number_part ibase body) in
        exists r,
          strtoi k (ws ++ sign_text sg ++ body) ibase = Some r
          /\ has_flag (final_flags r) FLAG_ANY
             = match ds with [] => false | _ => true end
          /\ (ds <> [] ->
              consumed_count r
              = lead_length ws sg + (if prefix_taken ibase body then 2 else 0)
                + Z.of_nat (Datatypes.length ds))).
Proof.
  repeat apply conj; try reflexivity.
  intros k ws sg body ibase. apply consumed_count_covers_run.
Qed.

(** C7.  With base 0 the digit loop runs in base 16 when the input, after
    blanks and sign, starts with ["0x"] or ["0X"], in base 8 when it starts
    with ['0'] otherwise, and in base 10 in every other case; the call then
    returns what it returns when that base is passed explicitly.  On a
    signed kind that can hold -511, ["  -0777"] with base 0 parses to [Ok]
    with value -511 and the seven characters consumed. *)
Theorem base_auto_detection (k : kind) (ws : string) (sg : sign_t)
    (body : string) :
  well_formed k ->
  all_space ws = true -> (sg = NoSign -> plain_start body = true) ->
  let input := (ws ++ sign_text sg ++ body)%string in
  let detected := if hex_prefixed body then 16
                  else if head_code body =? 48 then 8 else 10 in
  effective_base input 0 = Some detected
  /\ strtoi k input 0 = strtoi k input detected
  /\ (is_signed k = true -> strtoi_min k <= -511 ->
      summary (strtoi k "  -0777" 0) = Some (-511, 7, Ok)).
Proof.
  intros Hk Hws Hp input detected.
  assert (Ecb : chosen_base 0 body = detected).
  { unfold chosen_base, prefix_taken, detected.
    now rewrite orb_true_l, andb_true_r. }
  assert (Hd : 2 <= detected <= 36).
  { unfold detected. destruct (hex_prefixed body); [lia|].
    destruct (head_code body =? 48); lia. }
  split; [|split].
  - unfold input. rewrite effective_base_shape by (trivial; lia).
    now rewrite Ecb.
  - unfold input.
    rewrite !strtoi_shape by (trivial; (now left) || (now right)).
    cbv zeta. rewrite Ecb.
    assert (Ecb' : chosen_base detected body = detected).
    { unfold chosen_base, prefix_taken, detected.
      destruct (hex_prefixed body); [reflexivity|].
      destruct (head_code body =? 48); reflexivity. }
    assert (Ept : prefix_taken detected body = prefix_taken 0 body).
    { unfold prefix_taken, detected.
      destruct (hex_prefixed body); [reflexivity|].
      destruct (head_code body =? 48); reflexivity. }
    unfold number_part. now rewrite Ecb', Ept.
  - intros Es Hmin.
    change "  -0777"%string
      with ("  " ++ sign_text Minus ++ "0777")%string.
    rewrite strtoi_shape by (trivial; try (now left); discriminate).
    cbv zeta.
    change (chosen_base 0 "0777") with 8.
    change (run_digits 8 (number_part 0 "0777")) with [0; 7; 7; 7].
    change (prefix_taken 0 "0777") with false. cbv iota.
    cbn [sign_flags]. unfold cutoff, cutlim.
    destruct (pow_bits k Hk) as [E L].
    assert (Hmax : 510 <= strtoi_max k)
      by (revert Hmin; unfold strtoi_min, strtoi_max; rewrite Es; lia).
    rewrite (accum_fits k 8 (ucutoff k FLAG_NEG) Hk ltac:(lia)
               (cut_ok_sign k true Hk) [0; 7; 7; 7]).
    + cbn [fst snd]. rewrite finish_plain by reflexivity.
      change (Z.testbit (Z.lor FLAG_NEG FLAG_ANY) 0) with true. cbv iota.
      change (eval_digits 8 0 [0; 7; 7; 7]) with 511.
      rewrite to_type_neg_inner, to_type_id by (trivial; lia).
      reflexivity.
    + repeat constructor; lia.
    + lia.
    + change (eval_digits 8 0 [0; 7; 7; 7]) with 511.
      rewrite ucutoff_minus, Es by trivial. lia.
Qed.

Lemma base_auto_detection_witness :
  well_formed kind_int16 /\ all_space "  " = true
  /\ effective_base "  -0x1f" 0 = Some 16
  /\ strtoi kind_int16 "  -0x1f" 0 = strtoi kind_int16 "  -0x1f" 16
  /\ summary (strtoi kind_int16 "  -0777" 0) = Some (-511, 7, Ok).
Proof.
  assert (Hk : well_formed kind_int16) by (unfold well_formed; simpl; lia).
  assert (Hmin : strtoi_min kind_int16 <= -511)
    by (unfold strtoi_min; simpl; lia).
  destruct (base_auto_detection kind_int16 "  " Minus "0x1f"
              Hk eq_refl ltac:(discriminate)) as (Hbase & Hsame & Hex).
  split; [exact Hk|]. split; [reflexivity|]. split; [exact Hbase|].
  split; [exact Hsame | exact (Hex eq_refl Hmin)].
Defined.

(** C8 as stated fails when a ["0x"] prefix was skipped: no digit is
    consumed in ["0x"] with base 16, yet the consumed count is 1, the offset
    just past the ['0'], and not 0, the offset where scanning began. *)
Lemma no_digit_after_hex_prefix :
  exists r,
    strtoi kind_long "0x" 16 = Some r
    /\ has_flag (final_flags r) FLAG_ANY = false
    /\ value r = 0 /\ status r = NoDigitsConsumed
    /\ consumed_count r = 1 /\ consumed_count r <> 0.
Proof. eexists. repeat split. discriminate. Qed.

(** C8, amended.  Take any input, split into blanks, an optional sign and
    the rest (every input splits so), and any valid base.  The call
    accepts no digit exactly when the run of digit characters at the start
    of the number is empty; then the status is [NoDigitsConsumed], the
    value is 0 and the consumed count is 0, the offset where scanning
    began, however many blanks and whatever sign were scanned; unless a
    ["0x"] prefix was skipped (base 0 or 16), in which case the consumed
    count is the offset just past the ['0'] of that prefix. *)
Theorem no_digits_consumed (k : kind) (ws : string) (sg : sign_t)
    (body : string) (ibase : Z) :
  well_formed k -> valid_base ibase ->
  all_space ws = true -> (sg = NoSign -> plain_start body = true) ->
  let ds := run_digits (chosen_base ibase body) (number_part ibase body) in
  (ds = [] ->
   summary (strtoi k (ws ++ sign_text sg ++ body) ibase)
   = Some (0,
           if hex_prefixed body && ((ibase =? 0) || (ibase =? 16))
           then lead_length ws sg + 1 else 0,
           NoDigitsConsumed))
  /\ (exists r,
        strtoi k (ws ++ sign_text sg ++ body) ibase = Some r
        /\ (has_flag (final_flags r) FLAG_ANY = false <-> ds = []))
  /\ (forall s, exists ws' sg' body',
        s = (ws' ++ sign_text sg' ++ body')%string
        /\ all_space ws' = true
        /\ (sg' = NoSign -> plain_start body' = true)).
Proof.
  intros Hk Hb Hws Hp ds.
  destruct (run_stop k ws sg body ibase Hk Hb Hws Hp)
    as (r & Er & Ec & Ea & _ & Ez).
  fold ds in Ea, Ez. split; [|split].
  - intros Eds. destruct (Ez Eds) as [Ev Ee].
    rewrite Er. unfold summary, status. rewrite Ev, Ec, Ee, Ea.
    unfold stop_offset. fold ds. now rewrite Eds.
  - exists r. split; [exact Er|]. rewrite Ea.
    destruct ds; split; trivial; discriminate.
  - exact shape_exists.
Qed.

Lemma no_digits_consumed_witness :
  well_formed kind_long /\ valid_base 10 /\ valid_base 0
  /\ summary (strtoi kind_long "abc" 10) = Some (0, 0, NoDigitsConsumed)
  /\ summary (strtoi kind_long "  -abc" 10) = Some (0, 0, NoDigitsConsumed)
  /\ summary (strtoi kind_long " -0Xg" 0) = Some (0, 3, NoDigitsConsumed).
Proof.
  assert (Hk : well_formed kind_long) by (unfold well_formed; simpl; lia).
  assert (Hb : valid_base 10) by (right; lia).
  assert (Hb0 : valid_base 0) by (now left).
  assert (Hq : forall body, Minus = NoSign -> plain_start body = true)
    by (intros body HH; discriminate HH).
  pose proof (proj1 (no_digits_consumed kind_long "" NoSign "abc" 10
                       Hk Hb eq_refl (fun _ => eq_refl)) eq_refl) as H1.
  pose proof (proj1 (no_digits_consumed kind_long "  " Minus "abc" 10
                       Hk Hb eq_refl (Hq _)) eq_refl) as H2.
  pose proof (proj1 (no_digits_consumed kind_long " " Minus "0Xg" 0
                       Hk Hb0 eq_refl (Hq _)) eq_refl) as H3.
  split; [exact Hk|]. split; [exact Hb|]. split; [exact Hb0|].
  split; [exact H1|]. split; [exact H2 | exact H3].
Defined.

(** C9 as stated fails for the ['+']: put before an input that starts with
    a blank (or with a sign) it is read as the sign, and the blank after it
    ends the number before any digit: [" 5"] parses to 5, ["+ 5"] to 0 with
    no digit consumed. *)
Lemma plus_before_blank_changes_result :
  outcome (strtoi kind_long " 5" 10) = Some (5, Ok)
  /\ outcome (strtoi kind_long "+ 5" 10) = Some (0, NoDigitsConsumed)
  /\ outcome (strtoi kind_long "-5" 10) = Some (-5, Ok)
  /\ outcome (strtoi kind_long "+-5" 10) = Some (0, NoDigitsConsumed)
  /\ outcome (strtoi kind_long "+ 5" 10) <> outcome (strtoi kind_long " 5" 10).
Proof. repeat split. discriminate. Qed.

(** C9, amended.  For every input and every valid base, putting any run of
    blanks before the input changes neither the value nor the status; and
    so does putting a ['+'] before an input that starts with neither a
    blank nor a sign. *)
Theorem leading_blanks_and_plus (k : kind) (ws s : string) (ibase : Z) :
  well_formed k -> valid_base ibase -> all_space ws = true ->
  outcome (strtoi k (ws ++ s) ibase) = outcome (strtoi k s ibase)
  /\ (plain_start s = true ->
      outcome (strtoi k (String "+" s) ibase) = outcome (strtoi k s ibase)).
Proof.
  intros Hk Hb Hws. split.
  - destruct (shape_exists s) as (ws0 & sg & body & -> & Hws0 & Hp).
    rewrite <- append_assoc.
    rewrite !strtoi_shape by (trivial; now apply all_space_app).
    cbv zeta. apply outcome_finish.
  - intros Hp.
    change (String "+" s) with ("" ++ sign_text Plus ++ s)%string.
    change s with ("" ++ sign_text NoSign ++ s)%string at 2.
    rewrite !strtoi_shape by (trivial; discriminate).
    cbv zeta. apply outcome_finish.
Qed.

Lemma leading_blanks_and_plus_witness :
  well_formed kind_ulong /\ valid_base 0 /\ all_space "  " = true
  /\ plain_start "0x1A" = true
  /\ outcome (strtoi kind_ulong ("  " ++ "0x1A") 0)
     = outcome (strtoi kind_ulong "0x1A" 0)
  /\ outcome (strtoi kind_ulong (String "+" "0x1A") 0)
     = outcome (strtoi kind_ulong "0x1A" 0).
Proof.
  assert (Hk : well_formed kind_ulong) by (unfold well_formed; simpl; lia).
  assert (Hb : valid_base 0) by (now left).
  destruct (leading_blanks_and_plus kind_ulong "  " "0x1A" 0 Hk Hb eq_refl)
    as [Hblank Hplus].
  split; [exact Hk|]. split; [exact Hb|]. split; [reflexivity|].
  split; [reflexivity|]. split; [exact Hblank | exact (Hplus eq_refl)].
Defined.

(** C10.  For an unsigned kind of [w] bits, ['-'] followed by digits of
    magnitude [m] that fits the kind parses to status [Ok] with the value
    [(2 ^ w - m) mod 2 ^ w]; the sign and all digits are consumed.  This
    holds with either overflow strategy. *)
Theorem unsigned_negation_wraps (k : kind) (upper : bool) (b : Z)
    (ds : list Z) :
  well_formed k -> is_signed k = false -> 2 <= b <= 36 ->
  Forall (fun d => 0 <= d < b) ds -> ds <> [] ->
  eval_digits b 0 ds <= strtoi_max k ->
  summary (strtoi k (String "-" (render_digits upper ds)) b)
  = Some ((2 ^ bits k - eval_digits b 0 ds) mod 2 ^ bits k,
          1 + Z.of_nat (Datatypes.length ds), Ok).
Proof.
  intros Hk Es Hb Hds Hne Hfit.
  change (String "-" (render_digits upper ds))
    with (sign_string true ++ render_digits upper ds)%string.
  rewrite parse_fits; trivial.
  - cbn [sign_length]. do 3 f_equal. unfold to_type. rewrite Es.
    replace (2 ^ bits k - eval_digits b 0 ds)
      with (- eval_digits b 0 ds + 1 * 2 ^ bits k) by ring.
    now rewrite Z_mod_plus_full.
  - cbn [sign_flag]. rewrite ucutoff_minus, Es by trivial. lia.
Qed.

Lemma unsigned_negation_wraps_witness :
  well_formed kind_ulong_cutoff /\ is_signed kind_ulong_cutoff = false
  /\ 2 <= 16 <= 36 /\ Forall (fun d => 0 <= d < 16) [0; 1; 10]
  /\ [0; 1; 10] <> []
  /\ eval_digits 16 0 [0; 1; 10] <= strtoi_max kind_ulong_cutoff
  /\ summary (strtoi kind_ulong_cutoff "-01A" 16) = Some (4294967270, 4, Ok).
Proof.
  assert (Hk : well_formed kind_ulong_cutoff)
    by (unfold well_formed; simpl; lia).
  assert (Hds : Forall (fun d => 0 <= d < 16) [0; 1; 10])
    by (repeat constructor; lia).
  assert (Hne : [0; 1; 10] <> []) by discriminate.
  assert (Hfit : eval_digits 16 0 [0; 1; 10] <= strtoi_max kind_ulong_cutoff)
    by (unfold strtoi_max; simpl; lia).
  split; [exact Hk|]. split; [reflexivity|]. split; [lia|].
  split; [exact Hds|]. split; [exact Hne|]. split; [exact Hfit|].
  exact (unsigned_negation_wraps kind_ulong_cutoff true 16 [0; 1; 10]
           Hk eq_refl ltac:(lia) Hds Hne Hfit).
Defined.

(** * Further properties of the code *)

(** ** The run of digits and what it is worth *)

Lemma digit_of_nonneg (c : Z) : 0 <= digit_of c.
Proof. unfold digit_of, to_uchar. apply Z.mod_pos_bound. lia. Qed.

Lemma run_digits_valid (base : Z) (s : string) :
  Forall (fun d => 0 <= d < base) (run_digits base s).
Proof.
  induction s as [|c s IH]; cbn [run_digits]; [constructor|].
  destruct (Z.ltb_spec (digit_of (code c)) base); constructor; trivial.
  split; [apply digit_of_nonneg | trivial].
Qed.

Lemma run_digits_length (base : Z) (s : string) :
  (Datatypes.length (run_digits base s) <= String.length s)%nat.
Proof.
  induction s as [|c s IH]; cbn [run_digits String.length Datatypes.length];
    [lia|].
  destruct (digit_of (code c) <? base); cbn [Datatypes.length]; lia.
Qed.

Lemma cut_ok_flags (k : kind) (sg : sign_t) :
  well_formed k -> cut_ok k (ucutoff k (sign_flags sg)).
Proof.
  intros Hk. destruct sg.
  - exact (cut_ok_sign k false Hk).
  - exact (cut_ok_sign k false Hk).
  - exact (cut_ok_sign k true Hk).
Qed.

Lemma eval_digits_nonneg (b : Z) (ds : list Z) :
  1 <= b -> Forall (fun d => 0 <= d < b) ds -> 0 <= eval_digits b 0 ds.
Proof. intros Hb F. pose proof (eval_digits_ge b ds Hb F 0). lia. Qed.

(** Past the bound, the overflow flag is raised, provided the bound is the
    largest value the accumulator holds without wrapping. *)
Lemma accum_over (k : kind) (base : Z) (ds : list Z) :
  well_formed k -> 2 <= base <= 36 ->
  Forall (fun d => 0 <= d < base) ds ->
  forall v f,
    0 <= v <= strtoi_max k -> strtoi_max k < eval_digits base v ds ->
    Z.testbit
      (snd (accum k base (to_type k (strtoi_max k / base))
              (strtoi_max k mod base) ds (v, f))) 2 = true.
Proof.
  intros Hk Hb F. assert (HU : cut_ok k (strtoi_max k)) by now left.
  induction F as [|d ds Hd Hds IH]; intros v f Hv Hover.
  - simpl in Hover. lia.
  - cbn [accum fold_left eval_digits] in *.
    fold (eval_digits base (v * base + d) ds) in Hover.
    destruct (Z_le_gt_dec (v * base + d) (strtoi_max k)) as [Hfit|Hbig].
    + unfold step at 2. cbn [fst snd].
      rewrite (add_digit_fits k base (strtoi_max k) Hk Hb HU) by trivial.
      rewrite (to_type_nonneg k (v * base + d)) by (trivial; nia).
      apply IH; trivial. nia.
    + pose proof (add_digit_over k base (strtoi_max k) Hk Hb HU d v f
                    Hd Hv ltac:(lia)) as O.
      unfold step at 2. cbn [fst snd].
      destruct (add_digit k base _ _ d v f) as [v1 f1]. cbn [snd] in O.
      subst f1.
      pose proof (accum_bits k base (to_type k (strtoi_max k / base))
                    (strtoi_max k mod base) ds 0 v1
                    (Z.lor (Z.lor f FLAG_OFLOW) FLAG_ANY)) as B.
      cbv zeta in B. destruct B as (_ & B2 & _). apply B2.
      autorewrite with flags. now rewrite orb_true_r.
Qed.

Lemma finish_no_overflow (k : kind) (nptr off v f : Z) :
  Z.testbit f 2 = false ->
  errno (finish k nptr off v f) = ENONE
  /\ value (finish k nptr off v f)
     = (if Z.testbit f 0 then to_type k (- v) else v).
Proof.
  intros H2. unfold finish. cbn [value errno].
  autorewrite with flags. now rewrite H2.
Qed.

Lemma sign_flags_bit0 (sg : sign_t) (ds : list Z) :
  Z.testbit (match ds with [] => sign_flags sg
                      | _ => Z.lor (sign_flags sg) FLAG_ANY end) 0
  = match sg with Minus => true | _ => false end
  /\ Z.testbit (match ds with [] => sign_flags sg
                         | _ => Z.lor (sign_flags sg) FLAG_ANY end) 2
     = false.
Proof. destruct sg, ds; split; reflexivity. Qed.

(** While the run of digits stays within the bound, the call returns its
    number, signed. *)
Lemma run_fits (k : kind) (ws : string) (sg : sign_t) (body : string)
    (ibase : Z) :
  well_formed k -> valid_base ibase ->
  all_space ws = true -> (sg = NoSign -> plain_start body = true) ->
  let base := chosen_base ibase body in
  let ds := run_digits base (number_part ibase body) in
  let m := eval_digits base 0 ds in
  m <= ucutoff k (sign_flags sg) ->
  exists r,
    strtoi k (ws ++ sign_text sg ++ body) ibase = Some r
    /\ errno r = ENONE
    /\ value r = to_type k (signed_value sg m).
Proof.
  intros Hk Hb Hws Hp base ds m Hfit.
  pose proof (chosen_base_range ibase body Hb) as Hbase. fold base in Hbase.
  rewrite strtoi_shape by trivial. cbv zeta. fold base ds.
  unfold cutoff, cutlim.
  rewrite (accum_fits k base (ucutoff k (sign_flags sg)) Hk Hbase
             (cut_ok_flags k sg Hk) ds (run_digits_valid base _) 0
             (sign_flags sg))
    by (trivial; pose proof (strtoi_max_ge k Hk); lia).
  cbn [fst snd]. fold m. eexists. split; [reflexivity|].
  destruct (sign_flags_bit0 sg ds) as [B0 B2].
  destruct (finish_no_overflow k
              (if prefix_taken ibase body then lead_length ws sg + 1 else 0)
              ((if prefix_taken ibase body
                then lead_length ws sg + 3 else lead_length ws sg + 1)
               + Z.of_nat (Datatypes.length ds))
              (to_type k m) _ B2) as [E V].
  split; [exact E|]. rewrite V, B0.
  destruct sg; cbn [signed_value]; trivial.
  now apply to_type_neg_inner.
Qed.

(** Past the maximum, when the maximum is the bound in force, the call
    reports a range error and returns the maximum. *)
Lemma run_over (k : kind) (ws : string) (sg : sign_t) (body : string)
    (ibase : Z) :
  well_formed k -> valid_base ibase ->
  all_space ws = true -> (sg = NoSign -> plain_start body = true) ->
  let base := chosen_base ibase body in
  let ds := run_digits base (number_part ibase body) in
  let m := eval_digits base 0 ds in
  is_signed k = false \/ sg <> Minus ->
  strtoi_max k < m ->
  exists r,
    strtoi k (ws ++ sign_text sg ++ body) ibase = Some r
    /\ errno r = ERANGE /\ value r = strtoi_max k.
Proof.
  intros Hk Hb Hws Hp base ds m Hsg Hover.
  pose proof (chosen_base_range ibase body Hb) as Hbase. fold base in Hbase.
  assert (EU : ucutoff k (sign_flags sg) = strtoi_max k).
  { destruct sg; cbn [sign_flags]; try (now apply ucutoff_plus).
    rewrite ucutoff_minus by trivial.
    destruct Hsg as [-> | N]; [lia | congruence]. }
  rewrite strtoi_shape by trivial. cbv zeta. fold base ds.
  unfold cutoff, cutlim. rewrite EU.
  pose proof (accum_over k base ds Hk Hbase (run_digits_valid base _) 0
                (sign_flags sg)
                ltac:(pose proof (strtoi_max_ge k Hk); lia) Hover) as B2.
  pose proof (accum_bits k base (to_type k (strtoi_max k / base))
                (strtoi_max k mod base) ds 0 0 (sign_flags sg)) as B.
  cbv zeta in B. destruct B as (_ & _ & B0).
  specialize (B0 ltac:(lia) ltac:(lia)).
  set (st := accum k base _ _ ds (0, sign_flags sg)) in *.
  eexists. split; [reflexivity|].
  destruct (finish_clamped k
              (if prefix_taken ibase body then lead_length ws sg + 1 else 0)
              ((if prefix_taken ibase body
                then lead_length ws sg + 3 else lead_length ws sg + 1)
               + Z.of_nat (Datatypes.length ds))
              (fst st) (snd st) Hk B2) as (V & S & _).
  split.
  - unfold finish. cbn [errno]. now rewrite has_flag_OFLOW, B2.
  - rewrite V, B0. destruct Hsg as [-> | N]; trivial.
    destruct sg; try congruence; now rewrite andb_false_r.
Qed.

Lemma status_errno (r : result) :
  status r = OutOfRange <-> errno r = ERANGE.
Proof.
  unfold status. destruct (errno r); split; try discriminate; trivial.
  destruct (has_flag (final_flags r) FLAG_ANY); discriminate.
Qed.

(** ** Extra properties *)

(** X1.  On an unsigned kind, and on a signed kind when no ['-'] was read,
    overflow detection is exact, with either strategy: the status is
    [OutOfRange] exactly when the number [m] denoted by the run of digits
    exceeds the kind's maximum, and the value is then the maximum;
    otherwise the value is [m] (negated modulo [2 ^ bits] after a ['-'] on
    an unsigned kind). *)
Theorem overflow_detection_exact (k : kind) (ws : string) (sg : sign_t)
    (body : string) (ibase : Z) :
  well_formed k -> valid_base ibase ->
  all_space ws = true -> (sg = NoSign -> plain_start body = true) ->
  is_signed k = false \/ sg <> Minus ->
  let base := chosen_base ibase body in
  let m := eval_digits base 0 (run_digits base (number_part ibase body)) in
  exists r,
    strtoi k (ws ++ sign_text sg ++ body) ibase = Some r
    /\ (status r = OutOfRange <-> strtoi_max k < m)
    /\ (m <= strtoi_max k -> value r = to_type k (signed_value sg m))
    /\ (strtoi_max k < m -> value r = strtoi_max k).
Proof.
  intros Hk Hb Hws Hp Hsg base m.
  destruct (Z_le_gt_dec m (strtoi_max k)) as [Hfit|Hover].
  - destruct (run_fits k ws sg body ibase Hk Hb Hws Hp) as (r & Hr & E & V).
    + fold base m. destruct (cut_ok_flags k sg Hk) as [-> | [_ ->]]; lia.
    + exists r. split; [exact Hr|]. split; [|split].
      * split; [intros S; apply status_errno in S; congruence | lia].
      * intros _. exact V.
      * lia.
  - destruct (run_over k ws sg body ibase Hk Hb Hws Hp Hsg) as (r & Hr & E & V).
    + fold base m. lia.
    + exists r. split; [exact Hr|]. split; [|split].
      * split; [intros _; lia | intros _; now apply status_errno].
      * lia.
      * intros _. exact V.
Qed.

Lemma overflow_detection_exact_witness :
  well_formed kind_ulong /\ valid_base 0 /\ all_space " " = true
  /\ exists r,
       strtoi kind_ulong " +0x1FFFFFFFFzz" 0 = Some r
       /\ (status r = OutOfRange <-> strtoi_max kind_ulong < 8589934591)
       /\ (8589934591 <= strtoi_max kind_ulong ->
           value r = to_type kind_ulong 8589934591)
       /\ (strtoi_max kind_ulong < 8589934591 ->
           value r = strtoi_max kind_ulong).
Proof.
  assert (Hk : well_formed kind_ulong) by (unfold well_formed; simpl; lia).
  assert (Hb : valid_base 0) by (now left).
  split; [exact Hk|]. split; [exact Hb|]. split; [reflexivity|].
  pose proof (overflow_detection_exact kind_ulong " " Plus "0x1FFFFFFFFzz" 0
                Hk Hb eq_refl ltac:(discriminate) (or_introl eq_refl)) as H.
  cbv zeta in H.
  change (chosen_base 0 "0x1FFFFFFFFzz") with 16 in H.
  change (number_part 0 "0x1FFFFFFFFzz") with "1FFFFFFFFzz"%string in H.
  change (run_digits 16 "1FFFFFFFFzz")
    with [1; 15; 15; 15; 15; 15; 15; 15; 15] in H.
  change (eval_digits 16 0 [1; 15; 15; 15; 15; 15; 15; 15; 15])
    with 8589934591 in H.
  exact H.
Defined.

(** X2.  On a signed kind, a run of digits worth [m] after a ['-'] parses
    without range error to [- m] as long as [m] is at most
    [2 ^ (bits - 1)], the magnitude of the minimum. *)
Theorem signed_negative_value (k : kind) (ws body : string) (ibase : Z) :
  well_formed k -> valid_base ibase -> all_space ws = true ->
  is_signed k = true ->
  let base := chosen_base ibase body in
  let m := eval_digits base 0 (run_digits base (number_part ibase body)) in
  m <= 2 ^ (bits k - 1) ->
  exists r,
    strtoi k (ws ++ String "-" body) ibase = Some r
    /\ errno r = ENONE /\ value r = - m.
Proof.
  intros Hk Hb Hws Es base m Hm.
  destruct (pow_bits k Hk) as [E L].
  pose proof (chosen_base_range ibase body Hb) as Hbase.
  assert (Hpos : 0 <= m)
    by (apply eval_digits_nonneg; [lia | apply run_digits_valid]).
  destruct (run_fits k ws Minus body ibase Hk Hb Hws
              ltac:(intros HH; discriminate HH))
    as (r & Hr & Er & V).
  - fold base m. cbn [sign_flags]. rewrite ucutoff_minus, Es by trivial.
    unfold strtoi_max. rewrite Es. lia.
  - exists r. split; [exact Hr|]. split; [exact Er|].
    rewrite V. cbn [signed_value]. fold base m. apply to_type_id; trivial.
    unfold strtoi_min, strtoi_max. rewrite Es. lia.
Qed.

Lemma signed_negative_value_witness :
  well_formed kind_int16 /\ valid_base 16 /\ all_space "" = true
  /\ is_signed kind_int16 = true /\ 32768 <= 2 ^ (bits kind_int16 - 1)
  /\ exists r,
       strtoi kind_int16 "-0X8000" 16 = Some r
       /\ errno r = ENONE /\ value r = - 32768.
Proof.
  assert (Hk : well_formed kind_int16) by (unfold well_formed; simpl; lia).
  assert (Hb : valid_base 16) by (right; lia).
  assert (Hm : 32768 <= 2 ^ (bits kind_int16 - 1)) by (simpl; lia).
  split; [exact Hk|]. split; [exact Hb|]. split; [reflexivity|].
  split; [reflexivity|]. split; [exact Hm|].
  pose proof (signed_negative_value kind_int16 "" "0X8000" 16
                Hk Hb eq_refl eq_refl) as H.
  cbv zeta in H.
  change (chosen_base 16 "0X8000") with 16 in H.
  change (number_part 16 "0X8000") with "8000"%string in H.
  change (run_digits 16 "8000") with [8; 0; 0; 0] in H.
  change (eval_digits 16 0 [8; 0; 0; 0]) with 32768 in H.
  exact (H Hm).
Defined.

(** X3.  On a signed kind, whenever an input without sign parses without
    range error to [v], the same input with a ['-'] put before the number
    parses without range error to [- v]. *)
Theorem negation_symmetry (k : kind) (ws body : string) (ibase : Z)
    (r : result) :
  well_formed k -> valid_base ibase -> all_space ws = true ->
  plain_start body = true -> is_signed k = true ->
  strtoi k (ws ++ body) ibase = Some r -> errno r = ENONE ->
  exists r',
    strtoi k (ws ++ String "-" body) ibase = Some r'
    /\ errno r' = ENONE /\ value r' = - value r.
Proof.
  intros Hk Hb Hws Hp Es Hr Er.
  assert (Hn : NoSign <> Minus) by (intros HH; discriminate HH).
  assert (Hq : Minus = NoSign -> plain_start body = true)
    by (intros HH; discriminate HH).
  destruct (pow_bits k Hk) as [E L].
  pose proof (chosen_base_range ibase body Hb) as Hbase.
  set (base := chosen_base ibase body) in *.
  set (m := eval_digits base 0 (run_digits base (number_part ibase body))).
  assert (Hpos : 0 <= m)
    by (apply eval_digits_nonneg; [lia | apply run_digits_valid]).
  assert (Hfit : m <= strtoi_max k).
  { destruct (Z_le_gt_dec m (strtoi_max k)) as [H|H]; trivial.
    destruct (run_over k ws NoSign body ibase Hk Hb Hws (fun _ => Hp)
                (or_intror Hn))
      as (r0 & Hr0 & E0 & _); [fold base m; lia|].
    cbn [sign_text String.append] in Hr0. congruence. }
  destruct (run_fits k ws NoSign body ibase Hk Hb Hws (fun _ => Hp))
    as (r0 & Hr0 & _ & V0).
  { fold base m. cbn [sign_flags]. now rewrite ucutoff_plus. }
  cbn [sign_text String.append] in Hr0.
  assert (r0 = r) by congruence. subst r0.
  fold base m in V0. cbn [signed_value] in V0.
  rewrite to_type_nonneg in V0 by (trivial; lia).
  destruct (run_fits k ws Minus body ibase Hk Hb Hws Hq)
    as (r' & Hr' & Er' & V').
  { fold base m. cbn [sign_flags]. rewrite ucutoff_minus, Es by trivial. lia. }
  exists r'. split; [exact Hr'|]. split; [exact Er'|].
  rewrite V', V0. fold base m. cbn [signed_value]. apply to_type_id; trivial.
  unfold strtoi_min. rewrite Es. revert Hfit. unfold strtoi_max. rewrite Es. lia.
Qed.

Lemma negation_symmetry_witness :
  well_formed kind_long /\ valid_base 0 /\ all_space "  " = true
  /\ plain_start "0755 " = true /\ is_signed kind_long = true
  /\ summary (strtoi kind_long "  0755 " 0) = Some (493, 6, Ok)
  /\ exists r',
       strtoi kind_long "  -0755 " 0 = Some r'
       /\ errno r' = ENONE /\ value r' = - 493.
Proof.
  assert (Hk : well_formed kind_long) by (unfold well_formed; simpl; lia).
  assert (Hb : valid_base 0) by (now left).
  split; [exact Hk|]. split; [exact Hb|]. split; [reflexivity|].
  split; [reflexivity|]. split; [reflexivity|]. split; [reflexivity|].
  exact (negation_symmetry kind_long "  " "0755 " 0
           {| value := 493; consumed_count := 6; errno := ENONE;
              final_flags := 2 |}
           Hk Hb eq_refl eq_refl eq_refl eq_refl eq_refl).
Defined.

(** ** Where the call stops *)

Lemma prefix_taken_length (ibase : Z) (body : string) :
  (if prefix_taken ibase body
   then String.length body = S (S (String.length (number_part ibase body)))
   else number_part ibase body = body).
Proof.
  unfold number_part, prefix_taken.
  destruct body as [|c0 [|c1 body]]; cbn [hex_prefixed andb]; trivial.
  destruct ((code c0 =? 48) && ((code c1 =? 120) || (code c1 =? 88))
            && ((ibase =? 0) || (ibase =? 16))); reflexivity.
Qed.

Lemma stop_offset_bounds (ws : string) (sg : sign_t) (body : string)
    (ibase : Z) :
  0 <= stop_offset ws sg body ibase
  <= Z.of_nat (String.length (ws ++ sign_text sg ++ body)).
Proof.
  rewrite !length_append. unfold stop_offset, lead_length.
  pose proof (run_digits_length (chosen_base ibase body)
                (number_part ibase body)) as L.
  pose proof (prefix_taken_length ibase body) as P.
  destruct (run_digits (chosen_base ibase body) (number_part ibase body))
    as [|d ds]; destruct (prefix_taken ibase body);
    cbn [Datatypes.length] in *; try rewrite P in *; lia.
Qed.

Lemma valid_base_dec (ibase : Z) : {valid_base ibase} + {~ valid_base ibase}.
Proof.
  unfold valid_base.
  destruct (Z.eq_dec ibase 0); [left; now left|].
  destruct (Z_le_dec 2 ibase); [|right; lia].
  destruct (Z_le_dec ibase 36); [left; right; lia | right; lia].
Qed.

(** X4.  Every call returns, and the offset it stores through [endptr]
    lies within the string: between 0 and the length of the input.  The
    status is [InvalidConfiguration] exactly when the base is neither 0 nor
    in [2, 36]; with status [Ok] or [OutOfRange] at least one character was
    consumed; with status [NoDigitsConsumed] or [InvalidConfiguration] the
    value is 0. *)
Theorem result_within_input (k : kind) (s : string) (ibase : Z) :
  well_formed k ->
  - 2 ^ (int_bits k - 1) <= ibase < 2 ^ (int_bits k - 1) ->
  exists r,
    strtoi k s ibase = Some r
    /\ 0 <= consumed_count r <= Z.of_nat (String.length s)
    /\ (status r = InvalidConfiguration <-> ~ valid_base ibase)
    /\ (status r = Ok \/ status r = OutOfRange -> 1 <= consumed_count r)
    /\ (status r = NoDigitsConsumed \/ status r = InvalidConfiguration ->
        value r = 0).
Proof.
  intros Hk Hr. destruct (valid_base_dec ibase) as [Hb|Hb].
  - destruct (shape_exists s) as (ws & sg & body & -> & Hws & Hp).
    destruct (run_stop k ws sg body ibase Hk Hb Hws Hp)
      as (r & Er & Ec & Ea & Ee & Ez).
    exists r. split; [exact Er|].
    split; [rewrite Ec; apply stop_offset_bounds|].
    unfold status. rewrite Ea, Ec. unfold stop_offset.
    destruct (run_digits (chosen_base ibase body) (number_part ibase body))
      as [|d ds].
    + destruct (Ez eq_refl) as [Ev Een]. rewrite Een.
      repeat split; try discriminate; try tauto.
      intros [H|H]; discriminate.
    + repeat split; try tauto.
      * destruct (errno r); try discriminate; congruence.
      * intros _. unfold lead_length. cbn [Datatypes.length].
        destruct (prefix_taken ibase body); lia.
      * destruct (errno r); try congruence; intros [H|H]; discriminate.
  - assert (C : (36 <? to_uint k ibase) || (ibase =? 1) = true)
      by (apply base_check_fails; trivial; unfold valid_base in Hb; lia).
    unfold strtoi, strtoi_mem. rewrite C. eexists. split; [reflexivity|].
    cbn [consumed_count value]. unfold status. cbn [errno].
    repeat split; try tauto; try lia; intros [H|H]; discriminate.
Qed.

Lemma result_within_input_witness :
  well_formed kind_long
  /\ - 2 ^ (int_bits kind_long - 1) <= 0 < 2 ^ (int_bits kind_long - 1)
  /\ exists r,
       strtoi kind_long " -0x" 0 = Some r
       /\ 0 <= consumed_count r <= Z.of_nat (String.length " -0x")
       /\ (status r = InvalidConfiguration <-> ~ valid_base 0)
       /\ (status r = Ok \/ status r = OutOfRange -> 1 <= consumed_count r)
       /\ (status r = NoDigitsConsumed \/ status r = InvalidConfiguration ->
           value r = 0).
Proof.
  assert (Hk : well_formed kind_long) by (unfold well_formed; simpl; lia).
  assert (Hr : - 2 ^ (int_bits kind_long - 1) <= 0
               < 2 ^ (int_bits kind_long - 1)) by (simpl; lia).
  split; [exact Hk|]. split; [exact Hr|].
  exact (result_within_input kind_long " -0x" 0 Hk Hr).
Defined.

(** ** The two overflow strategies *)

(** The whole result in closed form, where overflow detection is exact. *)
Lemma summary_closed_form (k : kind) (ws : string) (sg : sign_t)
    (body : string) (ibase : Z) :
  well_formed k -> valid_base ibase ->
  all_space ws = true -> (sg = NoSign -> plain_start body = true) ->
  is_signed k = false \/ sg <> Minus ->
  let base := chosen_base ibase body in
  let ds := run_digits base (number_part ibase body) in
  let m := eval_digits base 0 ds in
  summary (strtoi k (ws ++ sign_text sg ++ body) ibase)
  = Some (if m <=? strtoi_max k then to_type k (signed_value sg m)
          else strtoi_max k,
          stop_offset ws sg body ibase,
          match ds with
          | [] => NoDigitsConsumed
          | _ => if m <=? strtoi_max k then Ok else OutOfRange
          end).
Proof.
  intros Hk Hb Hws Hp Hsg base ds m.
  destruct (run_stop k ws sg body ibase Hk Hb Hws Hp)
    as (r & Er & Ec & Ea & _ & _). fold base ds in Ea.
  rewrite Er. unfold summary. rewrite Ec. unfold status. rewrite Ea.
  destruct (Z.leb_spec m (strtoi_max k)) as [Hfit|Hover].
  - destruct (run_fits k ws sg body ibase Hk Hb Hws Hp) as (r' & Er' & E & V).
    + fold base ds m. destruct (cut_ok_flags k sg Hk) as [-> | [_ ->]]; lia.
    + assert (r' = r) by congruence. subst r'. fold base ds m in V.
      rewrite V, E. now destruct ds.
  - destruct (run_over k ws sg body ibase Hk Hb Hws Hp Hsg)
      as (r' & Er' & E & V).
    + fold base ds m. lia.
    + assert (r' = r) by congruence. subst r'. rewrite V, E.
      destruct ds; trivial.
      unfold m in Hover. cbn in Hover. pose proof (strtoi_max_ge k Hk). lia.
Qed.

(** X6.  On an unsigned kind the two overflow strategies, the checked
    builtins and the precomputed cut-off, give the same value, consumed
    count and status on every input and every valid base. *)
Theorem overflow_strategies_agree (k : kind) (s : string) (ibase : Z) :
  well_formed k -> valid_base ibase -> is_signed k = false ->
  summary (strtoi (with_builtins k true) s ibase)
  = summary (strtoi (with_builtins k false) s ibase).
Proof.
  intros Hk Hb Es.
  destruct (shape_exists s) as (ws & sg & body & -> & Hws & Hp).
  rewrite (summary_closed_form (with_builtins k true)),
    (summary_closed_form (with_builtins k false)); trivial; now left.
Qed.

Lemma overflow_strategies_agree_witness :
  well_formed kind_ulong /\ valid_base 10
  /\ is_signed kind_ulong = false
  /\ summary (strtoi kind_ulong "-4294967296" 10)
     = Some (4294967295, 11, OutOfRange)
  /\ summary (strtoi kind_ulong "-4294967296" 10)
     = summary (strtoi kind_ulong_cutoff "-4294967296" 10).
Proof.
  assert (Hk : well_formed kind_ulong) by (unfold well_formed; simpl; lia).
  assert (Hb : valid_base 10) by (right; lia).
  split; [exact Hk|]. split; [exact Hb|]. split; [reflexivity|].
  split; [reflexivity|].
  exact (overflow_strategies_agree kind_ulong "-4294967296" 10 Hk Hb eq_refl).
Defined.

(** ** Letter case *)

Lemma lower_table (c : Z) : 0 <= c < 256 -> lower_row c = true.
Proof. apply (below_spec 256). vm_compute. reflexivity. Qed.

Lemma lower_code_facts (c : Z) :
  0 <= c < 256 ->
  0 <= lower_code c < 256
  /\ digit_of (lower_code c) = digit_of c
  /\ ISSPACE (lower_code c) = ISSPACE c
  /\ (lower_code c =? 45) = (c =? 45) /\ (lower_code c =? 43) = (c =? 43)
  /\ (lower_code c =? 48) = (c =? 48)
  /\ (lower_code c =? 120) || (lower_code c =? 88)
     = (c =? 120) || (c =? 88).
Proof.
  intros Hc. pose proof (lower_table c Hc) as T. unfold lower_row in T.
  cbv zeta in T.
  repeat (apply andb_true_iff in T; destruct T as [T ?]).
  repeat match goal with
    | H : Bool.eqb _ _ = true |- _ => apply eqb_prop in H
    end.
  repeat split; trivial; lia.
Qed.

Lemma code_lower_char (c : ascii) : code (lower_char c) = lower_code (code c).
Proof.
  destruct (lower_code_facts (code c) (code_range c)) as (R & _).
  unfold lower_char. unfold code at 1. rewrite nat_ascii_embedding; lia.
Qed.

Lemma lower_app (s1 s2 : string) :
  lower (s1 ++ s2) = (lower s1 ++ lower s2)%string.
Proof. induction s1 as [|c s1 IH]; simpl; congruence. Qed.

Lemma lower_sign_text (sg : sign_t) : lower (sign_text sg) = sign_text sg.
Proof. destruct sg; reflexivity. Qed.

Lemma length_lower (s : string) : String.length (lower s) = String.length s.
Proof. induction s as [|c s IH]; simpl; congruence. Qed.

Lemma all_space_lower (s : string) : all_space (lower s) = all_space s.
Proof.
  induction s as [|c s IH]; cbn [lower all_space]; trivial.
  rewrite code_lower_char, IH.
  now destruct (lower_code_facts (code c) (code_range c)) as (_ & _ & -> & _).
Qed.

Lemma head_code_lower (s : string) :
  head_code (lower s) = lower_code (head_code s).
Proof. destruct s; cbn [lower head_code]; [reflexivity | apply code_lower_char]. Qed.

Lemma plain_start_lower (s : string) : plain_start (lower s) = plain_start s.
Proof.
  unfold plain_start. rewrite head_code_lower.
  destruct (lower_code_facts (head_code s) (head_code_range s))
    as (_ & _ & -> & -> & -> & _). reflexivity.
Qed.

Lemma hex_prefixed_lower (s : string) : hex_prefixed (lower s) = hex_prefixed s.
Proof.
  destruct s as [|c0 [|c1 s]]; cbn [lower hex_prefixed]; trivial.
  rewrite !code_lower_char.
  destruct (lower_code_facts (code c0) (code_range c0))
    as (_ & _ & _ & _ & _ & -> & _).
  destruct (lower_code_facts (code c1) (code_range c1))
    as (_ & _ & _ & _ & _ & _ & ->). reflexivity.
Qed.

Lemma string_tail_lower (s : string) :
  string_tail (lower s) = lower (string_tail s).
Proof. destruct s; reflexivity. Qed.

Lemma run_digits_lower (base : Z) (s : string) :
  run_digits base (lower s) = run_digits base s.
Proof.
  induction s as [|c s IH]; cbn [lower run_digits]; trivial.
  rewrite code_lower_char, IH.
  now destruct (lower_code_facts (code c) (code_range c)) as (_ & -> & _).
Qed.

Lemma prefix_taken_lower (ibase : Z) (s : string) :
  prefix_taken ibase (lower s) = prefix_taken ibase s.
Proof. unfold prefix_taken. now rewrite hex_prefixed_lower. Qed.

Lemma chosen_base_lower (ibase : Z) (s : string) :
  chosen_base ibase (lower s) = chosen_base ibase s.
Proof.
  unfold chosen_base. rewrite prefix_taken_lower, head_code_lower.
  now destruct (lower_code_facts (head_code s) (head_code_range s))
    as (_ & _ & _ & _ & _ & -> & _).
Qed.

Lemma number_part_lower (ibase : Z) (s : string) :
  number_part ibase (lower s) = lower (number_part ibase s).
Proof.
  unfold number_part. rewrite prefix_taken_lower.
  destruct (prefix_taken ibase s); trivial.
  now rewrite !string_tail_lower.
Qed.

(** X7.  Letter case never matters: an input and its lower-cased copy give
    the same result, so two inputs that differ only in the case of their
    letters (digits above 9, the ['x'] of the prefix) parse alike. *)
Theorem letter_case_ignored (k : kind) (s : string) (ibase : Z) :
  well_formed k -> valid_base ibase ->
  strtoi k (lower s) ibase = strtoi k s ibase
  /\ (forall s', lower s' = lower s -> strtoi k s' ibase = strtoi k s ibase).
Proof.
  intros Hk Hb.
  assert (L : forall t, strtoi k (lower t) ibase = strtoi k t ibase).
  { intros t. destruct (shape_exists t) as (ws & sg & body & -> & Hws & Hp).
    rewrite !lower_app, lower_sign_text.
    rewrite !strtoi_shape; trivial.
    - cbv zeta. unfold lead_length.
      now rewrite chosen_base_lower, number_part_lower, run_digits_lower,
        prefix_taken_lower, length_lower.
    - now rewrite all_space_lower.
    - intros E. rewrite plain_start_lower. auto. }
  split; [apply L|]. intros s' E. now rewrite <- (L s'), E, L.
Qed.

Lemma letter_case_ignored_witness :
  well_formed kind_long /\ valid_base 0
  /\ lower "-0X7fAbC" = "-0x7fabc"%string
  /\ strtoi kind_long "-0x7fabc" 0 = strtoi kind_long "-0X7fAbC" 0
  /\ strtoi kind_long "-0x7FABC" 0 = strtoi kind_long "-0X7fAbC" 0.
Proof.
  assert (Hk : well_formed kind_long) by (unfold well_formed; simpl; lia).
  assert (Hb : valid_base 0) by (now left).
  destruct (letter_case_ignored kind_long "-0X7fAbC" 0 Hk Hb) as [H1 H2].
  split; [exact Hk|]. split; [exact Hb|]. split; [reflexivity|].
  split; [exact H1 | exact (H2 "-0x7FABC"%string eq_refl)].
Defined.

(** ** Digits and letters *)

(** X8.  The case-folding trick of the loop classifies every decimal digit
    and every letter correctly: ['0'..'9'] are worth 0 to 9 and the letters,
    in either case, 10 to 35; hence a digit or letter is accepted by the
    loop exactly when its worth is below the base. *)
Theorem digits_and_letters_classified (c : Z) :
  (48 <= c <= 57 -> digit_of c = c - 48)
  /\ (97 <= c <= 122 -> digit_of c = c - 97 + 10)
  /\ (65 <= c <= 90 -> digit_of c = c - 65 + 10)
  /\ (forall upper d base,
        0 <= d < 36 -> 2 <= base <= 36 ->
        (base <=? digit_of (digit_code upper d)) = (base <=? d)).
Proof.
  assert (T : forall d, spec_digit_value c = Some d -> 0 <= c < 256 ->
                        digit_of c = d)
    by (intros d E Hc; now apply digit_of_digit).
  unfold spec_digit_value in T.
  repeat split.
  - intros H. apply T; [|lia].
    destruct (Z.leb_spec 48 c), (Z.leb_spec c 57); try lia. reflexivity.
  - intros H. apply T; [|lia].
    destruct (Z.leb_spec 48 c), (Z.leb_spec c 57), (Z.leb_spec 97 c),
      (Z.leb_spec c 122); try lia; reflexivity.
  - intros H. apply T; [|lia].
    destruct (Z.leb_spec 48 c), (Z.leb_spec c 57), (Z.leb_spec 97 c),
      (Z.leb_spec c 122), (Z.leb_spec 65 c), (Z.leb_spec c 90);
      try lia; reflexivity.
  - intros upper d base Hd _.
    now destruct (digit_code_facts upper d Hd) as (_ & -> & _).
Qed.

(** ** Bytes that are never read *)

Lemma skip_spaces_ext (l j : list Z) :
  forall off i s o,
    skip_spaces l off = Some (i, s, o) ->
    skip_spaces (l ++ j) off = Some (i, (s ++ j)%list, o).
Proof.
  induction l as [|c l IH]; intros off i s o H; cbn [skip_spaces app] in *;
    [discriminate|].
  destruct (ISSPACE c); [now apply IH|]. now injection H as <- <- <-.
Qed.

Lemma parse_sign_ext (i : Z) (s j : list Z) (off : Z) f i' s' o :
  parse_sign i s off = Some (f, i', s', o) ->
  parse_sign i (s ++ j) off = Some (f, i', (s' ++ j)%list, o).
Proof.
  unfold parse_sign.
  destruct (i =? 45); [|destruct (i =? 43)];
    try (destruct s as [|c s]; cbn [next bind app];
         [discriminate | now intros [= <- <- <- <-]]).
  now intros [= <- <- <- <-].
Qed.

Lemma detect_base_ext (base i : Z) (s j : list Z) (off : Z) b n i' s' o :
  detect_base base i s off = Some (b, n, i', s', o) ->
  detect_base base i (s ++ j) off = Some (b, n, i', (s' ++ j)%list, o).
Proof.
  unfold detect_base.
  destruct (i =? 48).
  - destruct s as [|c s]; cbn [peek nth_error bind app]; [discriminate|].
    destruct ((TOLOW c =? 120) && ((base =? 0) || (base =? 16))).
    + destruct s as [|c' s]; cbn [nth_error bind app skipn];
        [discriminate | now intros [= <- <- <- <- <-]].
    + destruct (base =? 0); now intros [= <- <- <- <- <-].
  - destruct (base =? 0); now intros [= <- <- <- <- <-].
Qed.

Lemma digit_loop_ext (k : kind) (base co cl : Z) (s j : list Z) :
  forall off i v f r,
    digit_loop k base co cl s off i v f = Some r ->
    digit_loop k base co cl (s ++ j) off i v f = Some r.
Proof.
  induction s as [|c s IH]; intros off i v f r H.
  - cbn [digit_loop] in H. destruct (Z.leb_spec base (digit_of i)).
    + rewrite digit_loop_stop by trivial. exact H.
    + destruct (add_digit k base co cl (digit_of i) v f). discriminate.
  - cbn [digit_loop app] in *. destruct (base <=? digit_of i); trivial.
    destruct (add_digit k base co cl (digit_of i) v f). now apply IH.
Qed.

(** A call that returns on the bytes [p] returns the same on every object
    that starts with [p]. *)
Lemma strtoi_mem_ext (k : kind) (p j : list Z) (ibase : Z) (r : result) :
  strtoi_mem k p ibase = Some r -> strtoi_mem k (p ++ j) ibase = Some r.
Proof.
  unfold strtoi_mem, prologue.
  destruct ((36 <? to_uint k ibase) || (ibase =? 1)); trivial.
  destruct (skip_spaces p 0) as [[[i s] o]|] eqn:E1; cbn [bind];
    [|discriminate].
  rewrite (skip_spaces_ext p j 0 i s o E1). cbn [bind].
  destruct (parse_sign i s o) as [[[[f i1] s1] o1]|] eqn:E2; cbn [bind];
    [|discriminate].
  rewrite (parse_sign_ext i s j o f i1 s1 o1 E2). cbn [bind].
  destruct (detect_base (to_uchar ibase) i1 s1 o1)
    as [[[[[b n] i2] s2] o2]|] eqn:E3; cbn [bind]; [|discriminate].
  rewrite (detect_base_ext _ i1 s1 j o1 b n i2 s2 o2 E3). cbn [bind].
  destruct (digit_loop k b (cutoff k f b) (cutlim k f b) s2 o2 i2 0 f)
    as [[[v f'] o']|] eqn:E4; cbn [bind]; [|discriminate].
  now rewrite (digit_loop_ext k b _ _ s2 j o2 i2 0 f _ E4).
Qed.

(** X10.  The bytes that follow the terminating NUL are never read: on an
    object that holds the string, its NUL and anything after it, the call
    returns what it returns on the string. *)
Theorem bytes_after_NUL_ignored (k : kind) (s : string) (j : list Z)
    (ibase : Z) :
  well_formed k ->
  - 2 ^ (int_bits k - 1) <= ibase < 2 ^ (int_bits k - 1) ->
  strtoi_mem k (c_string s ++ j) ibase = strtoi k s ibase.
Proof.
  intros Hk Hr. destruct (strtoi_total k s ibase Hk Hr) as [r E].
  rewrite E. now apply strtoi_mem_ext.
Qed.

Lemma bytes_after_NUL_ignored_witness :
  well_formed kind_ulong
  /\ - 2 ^ (int_bits kind_ulong - 1) <= 16 < 2 ^ (int_bits kind_ulong - 1)
  /\ strtoi_mem kind_ulong (c_string "0xff" ++ [49; 50; 0]) 16
     = strtoi kind_ulong "0xff" 16.
Proof.
  assert (Hk : well_formed kind_ulong) by (unfold well_formed; simpl; lia).
  assert (Hr : - 2 ^ (int_bits kind_ulong - 1) <= 16
               < 2 ^ (int_bits kind_ulong - 1)) by (simpl; lia).
  split; [exact Hk|]. split; [exact Hr|].
  exact (bytes_after_NUL_ignored kind_ulong "0xff" [49; 50; 0] 16 Hk Hr).
Defined.

(** ** The hexadecimal prefix *)

Lemma hex_prefixed_parts (body : string) :
  hex_prefixed body = true ->
  exists c0 c1 rest,
    body = String c0 (String c1 rest)
    /\ code c0 = 48 /\ (code c1 = 120 \/ code c1 = 88).
Proof.
  destruct body as [|c0 [|c1 rest]]; cbn [hex_prefixed]; try discriminate.
  intros H. apply andb_true_iff in H. destruct H as [H0 H1].
  apply orb_true_iff in H1. exists c0, c1, rest. repeat split; lia.
Qed.

(** X11.  With base 16 the ["0x"] prefix is optional: a number written with
    it and the same number written without it (the rest starting neither
    with blanks or a sign when no sign was given, nor with a second prefix)
    have the same value and status, and when a digit is consumed the stored
    offsets differ by the two characters of the prefix. *)
Theorem hex_prefix_optional (k : kind) (ws : string) (sg : sign_t)
    (c0 c1 : ascii) (rest : string) :
  well_formed k -> all_space ws = true ->
  hex_prefixed (String c0 (String c1 rest)) = true ->
  hex_prefixed rest = false -> (sg = NoSign -> plain_start rest = true) ->
  exists r1 r2,
    strtoi k (ws ++ sign_text sg ++ String c0 (String c1 rest)) 16 = Some r1
    /\ strtoi k (ws ++ sign_text sg ++ rest) 16 = Some r2
    /\ value r1 = value r2 /\ status r1 = status r2
    /\ (status r1 <> NoDigitsConsumed ->
        consumed_count r1 = consumed_count r2 + 2).
Proof.
  intros Hk Hws Hx Hr Hp.
  assert (Hb : valid_base 16) by (right; lia).
  assert (Hp1 : sg = NoSign -> plain_start (String c0 (String c1 rest)) = true).
  { intros _. destruct (hex_prefixed_parts _ Hx)
      as (a & b & t & [= <- <- <-] & E0 & _).
    unfold plain_start. cbn [head_code]. now rewrite E0. }
  assert (Ept : prefix_taken 16 (String c0 (String c1 rest)) = true)
    by (unfold prefix_taken; now rewrite Hx).
  assert (Ept' : prefix_taken 16 rest = false)
    by (unfold prefix_taken; now rewrite Hr).
  rewrite !strtoi_shape by trivial. cbv zeta.
  unfold chosen_base, number_part. rewrite Ept, Ept'.
  cbn [string_tail Z.eqb]. cbv iota.
  eexists. eexists. split; [reflexivity|]. split; [reflexivity|].
  split; [reflexivity|]. split; [reflexivity|].
  unfold status, finish. cbn [errno final_flags consumed_count].
  rewrite has_flag_ANY, accum_any.
  destruct (run_digits 16 rest) as [|d ds].
  - cbn [accum fold_left snd]. rewrite has_flag_OFLOW.
    destruct (sign_flags_bits sg) as [_ ->]. congruence.
  - intros _. lia.
Qed.

Lemma hex_prefix_optional_witness :
  well_formed kind_long /\ all_space " " = true
  /\ hex_prefixed "0Xbeef;" = true /\ hex_prefixed "beef;" = false
  /\ exists r1 r2,
       strtoi kind_long " -0Xbeef;" 16 = Some r1
       /\ strtoi kind_long " -beef;" 16 = Some r2
       /\ value r1 = value r2 /\ status r1 = status r2
       /\ (status r1 <> NoDigitsConsumed ->
           consumed_count r1 = consumed_count r2 + 2).
Proof.
  assert (Hk : well_formed kind_long) by (unfold well_formed; simpl; lia).
  assert (Hq : Minus = NoSign -> plain_start "beef;" = true)
    by (intros HH; discriminate HH).
  split; [exact Hk|]. split; [reflexivity|]. split; [reflexivity|].
  split; [reflexivity|].
  exact (hex_prefix_optional kind_long " " Minus "0" "X" "beef;"
           Hk eq_refl eq_refl eq_refl Hq).
Defined.

(** X12.  With an explicit base other than 16 in which ['x'] is no digit
    (2 to 33), a ["0x"] prefix is not skipped: the ['0'] is read as the
    number zero and the call stops at the ['x'], with status [Ok], value 0
    and the offset just past the ['0']. *)
Theorem hex_prefix_not_skipped (k : kind) (ws : string) (sg : sign_t)
    (body : string) (b : Z) :
  well_formed k -> 2 <= b <= 33 -> b <> 16 ->
  all_space ws = true -> hex_prefixed body = true ->
  summary (strtoi k (ws ++ sign_text sg ++ body) b)
  = Some (0, lead_length ws sg + 1, Ok).
Proof.
  intros Hk Hb H16 Hws Hx.
  assert (Hvb : valid_base b) by (right; lia).
  destruct (hex_prefixed_parts body Hx) as (c0 & c1 & rest & -> & E0 & E1).
  assert (Hp : sg = NoSign -> plain_start (String c0 (String c1 rest)) = true).
  { intros _. unfold plain_start. cbn [head_code]. now rewrite E0. }
  assert (Ept : prefix_taken b (String c0 (String c1 rest)) = false).
  { unfold prefix_taken. rewrite Hx.
    destruct (Z.eqb_spec b 0), (Z.eqb_spec b 16); trivial; lia. }
  assert (Ecb : chosen_base b (String c0 (String c1 rest)) = b).
  { unfold chosen_base. rewrite Ept. destruct (Z.eqb_spec b 0); trivial. lia. }
  assert (Eds : run_digits b (String c0 (String c1 rest)) = [0]).
  { cbn [run_digits]. rewrite E0. change (digit_of 48) with 0.
    destruct (Z.ltb_spec 0 b); [|lia].
    assert (E33 : digit_of (code c1) = 33)
      by (destruct E1 as [-> | ->]; reflexivity).
    rewrite E33. destruct (Z.ltb_spec 33 b); [lia | reflexivity]. }
  destruct (run_stop k ws sg _ b Hk Hvb Hws Hp) as (r & Er & Ec & Ea & _).
  destruct (run_fits k ws sg _ b Hk Hvb Hws Hp) as (r' & Er' & Ee & Ev).
  { unfold number_part. rewrite Ept, Ecb, Eds.
    change (eval_digits b 0 [0]) with (0 * b + 0).
    destruct (cut_ok_flags k sg Hk) as [-> | [_ ->]];
      pose proof (strtoi_max_ge k Hk); lia. }
  assert (r' = r) by congruence. subst r'.
  unfold number_part in *. rewrite Ept, Ecb, Eds in *.
  rewrite Er. unfold summary, status. rewrite Ev, Ec, Ee, Ea.
  unfold stop_offset, number_part. rewrite Ept, Ecb, Eds.
  change (eval_digits b 0 [0]) with (0 * b + 0).
  replace (signed_value sg (0 * b + 0)) with 0 by (destruct sg; simpl; lia).
  rewrite to_type_nonneg by (trivial; pose proof (strtoi_max_ge k Hk); lia).
  cbn [Datatypes.length]. do 3 f_equal. lia.
Qed.

Lemma hex_prefix_not_skipped_witness :
  well_formed kind_long /\ 2 <= 10 <= 33 /\ 10 <> 16
  /\ all_space "  " = true /\ hex_prefixed "0x1A" = true
  /\ summary (strtoi kind_long "  +0x1A" 10) = Some (0, 4, Ok).
Proof.
  assert (Hk : well_formed kind_long) by (unfold well_formed; simpl; lia).
  split; [exact Hk|]. split; [lia|]. split; [lia|].
  split; [reflexivity|]. split; [reflexivity|].
  exact (hex_prefix_not_skipped kind_long "  " Plus "0x1A" 10
           Hk ltac:(lia) ltac:(lia) eq_refl eq_refl).
Defined.

(** ** One sign only *)

Lemma after_sign_table (c : Z) : 0 <= c < 256 -> after_sign_row c = true.
Proof. apply (below_spec 256). vm_compute. reflexivity. Qed.

(** X13.  At most one sign is read, and nothing may stand between the sign
    and the number: when a blank or a second sign follows the sign, no
    digit is consumed, the value is 0 and the stored offset is 0. *)
Theorem nothing_after_sign (k : kind) (ws : string) (sg : sign_t)
    (body : string) (ibase : Z) :
  well_formed k -> valid_base ibase -> all_space ws = true ->
  sg <> NoSign -> plain_start body = false ->
  summary (strtoi k (ws ++ sign_text sg ++ body) ibase)
  = Some (0, 0, NoDigitsConsumed).
Proof.
  intros Hk Hb Hws Hsg Hplain.
  pose proof (chosen_base_range ibase body Hb) as Hbase.
  pose proof (after_sign_table (head_code body) (head_code_range body)) as T.
  unfold after_sign_row in T.
  assert (Hc : ISSPACE (head_code body) || (head_code body =? 45)
               || (head_code body =? 43) = true).
  { unfold plain_start in Hplain.
    destruct (ISSPACE (head_code body)), (head_code body =? 45),
      (head_code body =? 43); trivial; discriminate. }
  rewrite Hc in T. apply andb_true_iff in T. destruct T as [T36 T48].
  apply Z.leb_le in T36. apply negb_true_iff in T48.
  destruct body as [|c body]; [discriminate|]. cbn [head_code] in *.
  assert (Ept : prefix_taken ibase (String c body) = false).
  { unfold prefix_taken. destruct body; cbn [hex_prefixed]; trivial.
    now rewrite T48. }
  assert (Eds : run_digits (chosen_base ibase (String c body))
                  (number_part ibase (String c body)) = []).
  { unfold number_part. rewrite Ept. cbn [run_digits].
    destruct (Z.ltb_spec (digit_of (code c))
                (chosen_base ibase (String c body))); trivial; lia. }
  destruct (run_stop k ws sg (String c body) ibase Hk Hb Hws
              ltac:(intros HH; congruence))
    as (r & Er & Ec & Ea & _ & Ez).
  rewrite Eds in *. destruct (Ez eq_refl) as [Ev Ee].
  rewrite Er. unfold summary, status. rewrite Ev, Ec, Ee, Ea.
  unfold stop_offset. now rewrite Eds, Ept.
Qed.

Lemma nothing_after_sign_witness :
  well_formed kind_long /\ valid_base 10 /\ all_space " " = true
  /\ plain_start "-7" = false
  /\ summary (strtoi kind_long " --7" 10) = Some (0, 0, NoDigitsConsumed).
Proof.
  assert (Hk : well_formed kind_long) by (unfold well_formed; simpl; lia).
  assert (Hb : valid_base 10) by (right; lia).
  assert (Hn : Minus <> NoSign) by (intros HH; discriminate HH).
  split; [exact Hk|]. split; [exact Hb|]. split; [reflexivity|].
  split; [reflexivity|].
  exact (nothing_after_sign kind_long " " Minus "-7" 10
           Hk Hb eq_refl Hn eq_refl).
Defined.

(** ** The consumed text parses to the same value *)

Lemma string_take_app (s1 s2 : string) (m : nat) :
  string_take (String.length s1 + m) (s1 ++ s2)
  = (s1 ++ string_take m s2)%string.
Proof. induction s1 as [|c s1 IH]; simpl; congruence. Qed.

Lemma run_digits_take (base : Z) (s : string) :
  run_digits base
    (string_take (Datatypes.length (run_digits base s)) s)
  = run_digits base s.
Proof.
  induction s as [|c s IH]; cbn [run_digits]; trivial.
  destruct (digit_of (code c) <? base) eqn:E; trivial.
  cbn [Datatypes.length string_take run_digits]. now rewrite E, IH.
Qed.

Lemma head_code_take (n : nat) (s : string) :
  head_code (string_take (S n) s) = head_code s.
Proof. destruct s; reflexivity. Qed.

Lemma hex_prefixed_take (n : nat) (s : string) :
  hex_prefixed (string_take (S (S n)) s) = hex_prefixed s.
Proof. destruct s as [|c0 [|c1 s]]; reflexivity. Qed.

Lemma hex_prefixed_take_false (n : nat) (s : string) :
  hex_prefixed s = false -> hex_prefixed (string_take n s) = false.
Proof.
  destruct n as [|[|n]]; [reflexivity | | now rewrite hex_prefixed_take].
  destruct s as [|c0 s]; reflexivity.
Qed.

Lemma run_digits_nonempty (base : Z) (s : string) (d : Z) (ds : list Z) :
  run_digits base s = d :: ds ->
  d = digit_of (head_code s) /\ d < base /\ s <> EmptyString.
Proof.
  destruct s as [|c s]; cbn [run_digits head_code]; [discriminate|].
  destruct (Z.ltb_spec (digit_of (code c)) base); [|discriminate].
  intros [= <- _]. repeat split; trivial; discriminate.
Qed.

(** The text up to the stored offset, reparsed, when a digit was consumed:
    the very same result. *)
Lemma reparse_run (k : kind) (ws : string) (sg : sign_t) (body : string)
    (ibase : Z) :
  well_formed k -> valid_base ibase ->
  all_space ws = true -> (sg = NoSign -> plain_start body = true) ->
  run_digits (chosen_base ibase body) (number_part ibase body) <> [] ->
  strtoi k (string_take (Z.to_nat (stop_offset ws sg body ibase))
              (ws ++ sign_text sg ++ body)) ibase
  = strtoi k (ws ++ sign_text sg ++ body) ibase.
Proof.
  intros Hk Hb Hws Hp Hne.
  set (base := chosen_base ibase body) in *.
  set (n := Datatypes.length (run_digits base (number_part ibase body))).
  pose proof (prefix_taken_length ibase body) as PL.
  set (pre := if prefix_taken ibase body then 2%nat else 0%nat).
  assert (En : exists n', n = S n').
  { unfold n. destruct (run_digits base (number_part ibase body));
      [congruence | eexists; reflexivity]. }
  assert (Est : Z.to_nat (stop_offset ws sg body ibase)
                = (String.length ws
                   + (String.length (sign_text sg) + (pre + n)))%nat).
  { unfold stop_offset, lead_length, pre. fold base. fold n.
    destruct (run_digits base (number_part ibase body)); [congruence|].
    destruct (prefix_taken ibase body); lia. }
  rewrite Est, !string_take_app.
  set (body' := string_take (pre + n) body).
  assert (Ept : prefix_taken ibase body' = prefix_taken ibase body).
  { unfold body', pre, prefix_taken.
    destruct (hex_prefixed body) eqn:Eh.
    - destruct ((ibase =? 0) || (ibase =? 16)) eqn:Eb.
      + cbn [andb]. destruct En as [n' ->].
        destruct (prefix_taken ibase body) eqn:Ep; cbn [Nat.add].
        * now rewrite hex_prefixed_take, Eh.
        * unfold prefix_taken in Ep. rewrite Eh, Eb in Ep. discriminate.
      + now rewrite !andb_false_r.
    - now rewrite hex_prefixed_take_false. }
  assert (Ehd : head_code body' = head_code body).
  { unfold body'. destruct En as [n' ->].
    replace (pre + S n')%nat with (S (pre + n')) by lia.
    apply head_code_take. }
  assert (Ecb : chosen_base ibase body' = base)
    by (unfold base, chosen_base; now rewrite Ept, Ehd).
  assert (Enp : number_part ibase body'
                = string_take n (number_part ibase body)).
  { unfold number_part. rewrite Ept. unfold body', pre.
    destruct (prefix_taken ibase body); [|reflexivity].
    destruct body as [|c0 [|c1 body]]; cbn [String.length] in PL;
      try discriminate. reflexivity. }
  assert (Hp' : sg = NoSign -> plain_start body' = true).
  { intros E. unfold plain_start. rewrite Ehd. exact (Hp E). }
  rewrite !strtoi_shape by trivial. cbv zeta.
  rewrite Ept, Ecb, Enp. fold base. unfold n. now rewrite run_digits_take.
Qed.

(** X14.  The text up to the stored offset is all the call needed: parsed
    alone, it gives the same value and is consumed whole, up to the same
    offset; the status is the same too whenever a digit was consumed. *)
Theorem consumed_text_reparses (k : kind) (s : string) (ibase : Z)
    (r : result) :
  well_formed k -> valid_base ibase -> strtoi k s ibase = Some r ->
  exists r',
    strtoi k (string_take (Z.to_nat (consumed_count r)) s) ibase = Some r'
    /\ value r' = value r /\ consumed_count r' = consumed_count r
    /\ (status r <> NoDigitsConsumed -> status r' = status r).
Proof.
  intros Hk Hb Hr.
  destruct (shape_exists s) as (ws & sg & body & -> & Hws & Hp).
  destruct (run_stop k ws sg body ibase Hk Hb Hws Hp)
    as (r0 & E0 & Ec & Ea & _ & Ez).
  assert (r0 = r) by congruence. subst r0. rewrite Ec.
  destruct (run_digits (chosen_base ibase body) (number_part ibase body))
    as [|d ds] eqn:Eds.
  - destruct (Ez eq_refl) as [Ev Ee].
    assert (Est : status r = NoDigitsConsumed)
      by (unfold status; now rewrite Ee, Ea).
    unfold stop_offset in *. rewrite Eds in *.
    destruct (prefix_taken ibase body) eqn:Ept.
    + unfold prefix_taken in Ept. apply andb_true_iff in Ept.
      destruct Ept as [Hx Hib].
      destruct (hex_prefixed_parts body Hx) as (c0 & c1 & rest & -> & E48 & _).
      replace (Z.to_nat (lead_length ws sg + 1))
        with (String.length ws + (String.length (sign_text sg) + 1))%nat
        by (unfold lead_length; lia).
      rewrite !string_take_app. cbn [string_take].
      assert (Hp1 : sg = NoSign -> plain_start (String c0 "") = true)
        by (intros _; unfold plain_start; cbn [head_code]; now rewrite E48).
      assert (Ept1 : prefix_taken ibase (String c0 "") = false) by reflexivity.
      assert (Hcb : 2 <= chosen_base ibase (String c0 "") <= 36)
        by now apply chosen_base_range.
      assert (Eds1 : run_digits (chosen_base ibase (String c0 ""))
                       (number_part ibase (String c0 "")) = [0]).
      { unfold number_part. rewrite Ept1. cbn [run_digits]. rewrite E48.
        change (digit_of 48) with 0.
        destruct (Z.ltb_spec 0 (chosen_base ibase (String c0 "")));
          [reflexivity | lia]. }
      destruct (run_stop k ws sg (String c0 "") ibase Hk Hb Hws Hp1)
        as (r1 & E1 & Ec1 & _).
      destruct (run_fits k ws sg (String c0 "") ibase Hk Hb Hws Hp1)
        as (r2 & E2 & _ & Ev2).
      { rewrite Eds1. change (eval_digits _ 0 [0])
          with (0 * chosen_base ibase (String c0 "") + 0).
        destruct (cut_ok_flags k sg Hk) as [-> | [_ ->]];
          pose proof (strtoi_max_ge k Hk); lia. }
      assert (r2 = r1) by congruence. subst r2.
      exists r1. split; [exact E1|]. split; [|split].
      * rewrite Ev2, Ev, Eds1.
        change (eval_digits _ 0 [0])
          with (0 * chosen_base ibase (String c0 "") + 0).
        replace (signed_value sg (0 * chosen_base ibase (String c0 "") + 0))
          with 0 by (destruct sg; simpl; lia).
        apply to_type_nonneg; trivial. pose proof (strtoi_max_ge k Hk). lia.
      * rewrite Ec1. unfold stop_offset. rewrite Eds1, Ept1.
        cbn [Datatypes.length]. lia.
      * congruence.
    + change (Z.to_nat 0) with 0%nat.
      replace (string_take 0 (ws ++ sign_text sg ++ body)) with EmptyString
        by (now destruct (ws ++ sign_text sg ++ body)%string).
      destruct (run_stop k "" NoSign "" ibase Hk Hb eq_refl (fun _ => eq_refl))
        as (r1 & E1 & Ec1 & _ & _ & Ez1).
      destruct (Ez1 eq_refl) as [Ev1 _].
      exists r1. split; [exact E1|]. split; [congruence|].
      split; [|congruence].
      rewrite Ec1. unfold stop_offset. cbn [number_part run_digits].
      replace (prefix_taken ibase "") with false by reflexivity.
      unfold number_part. replace (prefix_taken ibase "") with false
        by reflexivity. reflexivity.
  - exists r. split; [|split; [|split]]; trivial.
    rewrite <- E0. apply reparse_run; trivial. rewrite Eds. discriminate.
Qed.

Lemma consumed_text_reparses_witness :
  well_formed kind_long /\ valid_base 0
  /\ summary (strtoi kind_long " -0x1fg2" 0) = Some (-31, 6, Ok)
  /\ string_take 6 " -0x1fg2" = " -0x1f"%string
  /\ exists r',
       strtoi kind_long " -0x1f" 0 = Some r'
       /\ value r' = -31 /\ consumed_count r' = 6
       /\ (Ok <> NoDigitsConsumed -> status r' = Ok).
Proof.
  assert (Hk : well_formed kind_long) by (unfold well_formed; simpl; lia).
  assert (Hb : valid_base 0) by (now left).
  split; [exact Hk|]. split; [exact Hb|]. split; [reflexivity|].
  split; [reflexivity|].
  exact (consumed_text_reparses kind_long " -0x1fg2" 0
           {| value := -31; consumed_count := 6; errno := ENONE;
              final_flags := 3 |} Hk Hb eq_refl).
Defined.

(** ** What follows the stop *)

Lemma head_code_app (s t : string) :
  s <> EmptyString -> head_code (s ++ t) = head_code s.
Proof. destruct s; [congruence | reflexivity]. Qed.

Lemma hex_prefixed_app (s t : string) :
  (2 <= String.length s)%nat -> hex_prefixed (s ++ t) = hex_prefixed s.
Proof.
  destruct s as [|c0 [|c1 s]]; cbn [String.length]; try lia. reflexivity.
Qed.

Lemma string_tail2_app (s t : string) :
  (2 <= String.length s)%nat ->
  string_tail (string_tail (s ++ t))
  = (string_tail (string_tail s) ++ t)%string.
Proof.
  destruct s as [|c0 [|c1 s]]; cbn [String.length]; try lia. reflexivity.
Qed.

(** A run of digits that ends inside [s] is not extended by what follows
    [s]. *)
Lemma run_digits_app_stop (base : Z) (s t : string) :
  (Datatypes.length (run_digits base s) < String.length s)%nat ->
  run_digits base (s ++ t) = run_digits base s.
Proof.
  induction s as [|c s IH]; cbn [run_digits String.length String.append];
    [lia|].
  destruct (digit_of (code c) <? base); trivial.
  cbn [Datatypes.length]. intros H. rewrite IH; [reflexivity | lia].
Qed.

(** X9.  What follows the character that stopped the scan never matters:
    when the call consumes at least one digit of [s1] and stops before the
    end of [s1], it returns the very same result on [s1] followed by any
    [s2]. *)
Theorem text_after_stop_ignored (k : kind) (s1 s2 : string) (ibase : Z)
    (r : result) :
  well_formed k -> valid_base ibase ->
  strtoi k s1 ibase = Some r ->
  status r <> NoDigitsConsumed ->
  consumed_count r < Z.of_nat (String.length s1) ->
  strtoi k (s1 ++ s2) ibase = Some r.
Proof.
  intros Hk Hb Hr Hst Hcc.
  destruct (shape_exists s1) as (ws & sg & body & -> & Hws & Hp).
  destruct (run_stop k ws sg body ibase Hk Hb Hws Hp)
    as (r0 & E0 & Ec & Ea & _ & Ez).
  assert (r0 = r) by congruence. subst r0.
  set (base := chosen_base ibase body) in *.
  pose proof (prefix_taken_length ibase body) as PL.
  pose proof (run_digits_length base (number_part ibase body)) as RL.
  assert (Hne : run_digits base (number_part ibase body) <> []).
  { intros Eds. destruct (Ez Eds) as [_ Ee]. apply Hst.
    unfold status. now rewrite Ee, Ea, Eds. }
  rewrite Ec, !length_append in Hcc. unfold stop_offset, lead_length in Hcc.
  fold base in Hcc.
  assert (Hlen : (Datatypes.length (run_digits base (number_part ibase body))
                  < String.length (number_part ibase body))%nat
                 /\ (2 <= String.length body)%nat).
  { destruct (run_digits base (number_part ibase body)) as [|d ds] eqn:Eds;
      [congruence|].
    destruct (prefix_taken ibase body).
    - rewrite PL in Hcc. cbn [Datatypes.length] in *. lia.
    - rewrite PL in *. cbn [Datatypes.length] in *. lia. }
  destruct Hlen as [Hrun H2].
  assert (Hbody : body <> EmptyString)
    by (intros ->; cbn [String.length] in H2; lia).
  assert (Ept : prefix_taken ibase (body ++ s2) = prefix_taken ibase body)
    by (unfold prefix_taken; now rewrite hex_prefixed_app).
  assert (Ehd : head_code (body ++ s2) = head_code body)
    by now apply head_code_app.
  assert (Ecb : chosen_base ibase (body ++ s2) = base)
    by (unfold base, chosen_base; now rewrite Ept, Ehd).
  assert (Enp : number_part ibase (body ++ s2)
                = (number_part ibase body ++ s2)%string).
  { unfold number_part. rewrite Ept.
    destruct (prefix_taken ibase body); [|reflexivity].
    now apply string_tail2_app. }
  assert (Hp' : sg = NoSign -> plain_start (body ++ s2) = true).
  { intros E. unfold plain_start. rewrite Ehd. exact (Hp E). }
  rewrite !append_assoc, <- E0.
  rewrite !strtoi_shape by trivial. cbv zeta.
  rewrite Ept, Ecb, Enp. fold base.
  now rewrite run_digits_app_stop.
Qed.

Lemma text_after_stop_ignored_witness :
  well_formed kind_long /\ valid_base 0
  /\ summary (strtoi kind_long " -0x1fg" 0) = Some (-31, 6, Ok)
  /\ 6 < Z.of_nat (String.length " -0x1fg")
  /\ strtoi kind_long (" -0x1fg" ++ "2 ") 0
     = Some {| value := -31; consumed_count := 6; errno := ENONE;
               final_flags := 3 |}.
Proof.
  assert (Hk : well_formed kind_long) by (unfold well_formed; simpl; lia).
  assert (Hb : valid_base 0) by (now left).
  assert (Hst : Ok <> NoDigitsConsumed) by (intros HH; discriminate HH).
  assert (Hcc : 6 < Z.of_nat (String.length " -0x1fg")) by (simpl; lia).
  split; [exact Hk|]. split; [exact Hb|]. split; [reflexivity|].
  split; [exact Hcc|].
  exact (text_after_stop_ignored kind_long " -0x1fg" "2 " 0
           {| value := -31; consumed_count := 6; errno := ENONE;
              final_flags := 3 |} Hk Hb eq_refl Hst Hcc).
Defined.
